(** * Login-streak engine of src/api/streaks.js: shallow embedding and proofs

    The file embeds the streak functions of [src/api/streaks.js]
    ([recordLogin], [updateStreak], [getStreakData],
    [needsStreakMaintenance], [getStreakAchievements],
    [getAchievementTitle]) together with a small model of the two
    tables they talk to, and proves the properties the specification
    states about them.

    Modelling conventions.
    - A calendar day ('yyyy-MM-dd') is its day number, an integer. A
      [Date] is its instant, in milliseconds; [new Date('yyyy-MM-dd')] is
      midnight UTC of that day, and the date-fns helpers that take
      [Date]s read them in the time zone of the process.
    - Numbers are integers ([Z]); the counters of the code only ever hold
      integers.
    - The tables are a finite set of (student, day) pairs with the UNIQUE
      constraint built in, and a finite map from student to the summary
      columns.
    - A store call may fail: the world carries the list of the outcomes
      the store will give to the coming calls, and the clock. *)

From Stdlib Require Import ZArith Lia.
From stdpp Require Import gmap strings list sorting pretty.

Local Open Scope Z_scope.

(** ** date-fns, on day numbers *)

Module DateFns.

Definition date := Z.

(** The value of a [Date]: milliseconds since the epoch. *)
Definition instant := Z.

Definition MILLISECONDS_IN_DAY : Z := 86400000.

(** A time zone gives the UTC offset, in milliseconds, in force at each
    instant. *)
Definition TimeZone := instant → Z.

(** Offsets lie between -12:00 and +14:00; what a zone gives beyond is
    read as the nearest of the two. *)
Definition utcOffset (tz : TimeZone) (t : instant) : Z :=
  Z.max (-43200000) (Z.min 50400000 (tz t)).

(** [new Date('yyyy-MM-dd')]: a date-only string is midnight UTC. *)
Definition Date_parse (d : date) : instant := d * MILLISECONDS_IN_DAY.

(** The local wall clock at an instant, in milliseconds; it orders
    instants as their local year, month, day, hours, minutes, seconds and
    milliseconds do. *)
Definition localTime (tz : TimeZone) (t : instant) : Z := t + utcOffset tz t.

(** The local calendar day at an instant. *)
Definition localDay (tz : TimeZone) (t : instant) : Z :=
  localTime tz t / MILLISECONDS_IN_DAY.

(** date-fns is not part of the repository; the three functions below
    follow its source (v2 and v3). *)

(** [compareLocalAsc], on wall-clock values: -1, 0 or 1. *)
Definition compareLocalAsc (localLeft localRight : Z) : Z :=
  Z.sgn (localLeft - localRight).

(** [differenceInCalendarDays(left, right)]: the difference of the local
    calendar days. *)
Definition differenceInCalendarDays (tz : TimeZone) (dateLeft dateRight : instant) : Z :=
  localDay tz dateLeft - localDay tz dateRight.

(** [differenceInDays(left, right)]: the number of full local days from
    [right] to [left]. [movedLeft] is [dateLeft] after
    [setDate(getDate() - sign * difference)]: the same local time of day,
    [sign * difference] local days earlier (a wall-clock time that the
    zone skips is taken as it stands). The result is an integer, so the
    last line of the source, which turns [-0] into [0], has nothing to
    do. *)
Definition differenceInDays (tz : TimeZone) (dateLeft dateRight : instant) : Z :=
  let sign := compareLocalAsc (localTime tz dateLeft) (localTime tz dateRight) in
  let difference := Z.abs (differenceInCalendarDays tz dateLeft dateRight) in
  let movedLeft := localTime tz dateLeft - sign * difference * MILLISECONDS_IN_DAY in
  let isLastDayNotFull :=
    if compareLocalAsc movedLeft (localTime tz dateRight) =? - sign then 1 else 0 in
  sign * (difference - isLastDayNotFull).

(** [subDays(d, amount)]. *)
Definition subDays (d : date) (amount : Z) : date := d - amount.

(** [format(d, 'yyyy-MM-dd')]: the day of [d]. *)
Definition format (d : date) : date := d.

End DateFns.

Export DateFns.

(** ** The parts of JavaScript the code relies on *)

Module Js.

(** [Array.prototype.sort(compareFn)]: [a] is placed before [b] when
    [compareFn(a, b) <= 0]. *)
Definition Array_sort {A} (compareFn : A → A → Z) (l : list A) : list A :=
  @merge_sort A (λ a b, compareFn a b ≤ 0)
    (λ a b, decide (compareFn a b ≤ 0)) l.

(** [Array.prototype.find]. *)
Fixpoint Array_find {A} (p : A → bool) (l : list A) : option A :=
  match l with
  | [] => None
  | x :: l' => if p x then Some x else Array_find p l'
  end.

(** Truthiness of a number that may be [undefined]. *)
Definition truthy (v : option Z) : bool :=
  match v with
  | Some n => negb (n =? 0)
  | None => false
  end.

(** Truthiness of an object that may be [null]. *)
Definition truthy_object {A} (v : option A) : bool :=
  match v with
  | Some _ => true
  | None => false
  end.

(** Template-literal rendering of an integer. *)
Definition toString (n : Z) : string := pretty n.

End Js.

(** ** Streak arithmetic of [updateStreak] *)

Section StreakLoops.

Variable tz : TimeZone.
Variable sortedDates : list date.

(** The loop that follows [currentStreak = 1]:
    [for (let i = 1; i < sortedDates.length; i++)] with its [break].
    [fuel] bounds the number of iterations. *)
Fixpoint currentStreak_loop (fuel i : nat) (currentStreak : Z) : Z :=
  match fuel with
  | O => currentStreak
  | S fuel' =>
      if bool_decide (i < length sortedDates)%nat then
        let daysDiff :=
          differenceInDays tz (Date_parse (sortedDates !!! (i - 1)%nat))
            (Date_parse (sortedDates !!! i)) in
        if bool_decide (daysDiff = 1)
        then currentStreak_loop fuel' (S i) (currentStreak + 1)
        else currentStreak
      else currentStreak
  end.

(** The loop of "Calculate longest streak"; it carries [tempStreak] and
    [longestStreak]. *)
Fixpoint longestStreak_loop (fuel i : nat) (tempStreak longestStreak : Z) : Z :=
  match fuel with
  | O => longestStreak
  | S fuel' =>
      if bool_decide (i < length sortedDates)%nat then
        let daysDiff :=
          differenceInDays tz (Date_parse (sortedDates !!! (i - 1)%nat))
            (Date_parse (sortedDates !!! i)) in
        if bool_decide (daysDiff = 1)
        then
          let tempStreak' := tempStreak + 1 in
          longestStreak_loop fuel' (S i) tempStreak' (Z.max longestStreak tempStreak')
        else longestStreak_loop fuel' (S i) 1 longestStreak
      else longestStreak
  end.

End StreakLoops.

(** A row of [select('login_date')]. *)
Record LoginRow := { login_date : date }.

(** The object handed to [streak_tracking.upsert], and the object a
    [select('*')] on that table gives back. [student_id] is absent from
    the literal that [getStreakData] builds itself. *)
Record StreakData := {
  student_id : option string;
  current_streak : Z;
  longest_streak : Z;
  last_login_date : option date;
  total_login_days : Z;
}.

Definition sortDates (logins : list LoginRow) : list date :=
  Js.Array_sort (λ a b, Date_parse b - Date_parse a) (map login_date logins).

(** Lines 55-79 of streaks.js: the value of [currentStreak] when the
    second loop starts. *)
Definition computeCurrentStreak (tz : TimeZone) (logins : list LoginRow)
    (today : date) : Z :=
  let sortedDates := sortDates logins in
  match sortedDates !! 0%nat with
  | None => 0 (* [undefined] gives NaN, and [NaN <= 1] is false *)
  | Some mostRecentLogin =>
      let daysSinceLastLogin :=
        differenceInDays tz (Date_parse today) (Date_parse mostRecentLogin) in
      if bool_decide (daysSinceLastLogin ≤ 1)
      then currentStreak_loop tz sortedDates (length sortedDates) 1 1
      else 0
  end.

(** Lines 81-96: the final value of [longestStreak]. *)
Definition computeLongestStreak (tz : TimeZone) (logins : list LoginRow)
    (today : date) : Z :=
  let sortedDates := sortDates logins in
  let currentStreak := computeCurrentStreak tz logins today in
  let longestStreak := longestStreak_loop tz sortedDates (length sortedDates) 1 1 1 in
  Z.max longestStreak currentStreak.

(** The payload of the [streak_tracking] upsert (lines 101-107). *)
Definition streakPayload (tz : TimeZone) (studentId : string)
    (logins : list LoginRow) (today : date) : StreakData :=
  {| student_id := Some studentId;
     current_streak := computeCurrentStreak tz logins today;
     longest_streak := computeLongestStreak tz logins today;
     last_login_date := Some today;
     total_login_days := Z.of_nat (length logins) |}.

(** ** Milestones *)

Record Achievement := {
  milestone : Z;
  title : string;
  achieved : bool;
}.

Record Upcoming := {
  upcoming_milestone : Z;
  upcoming_title : string;
  daysRemaining : Z;
}.

Record Achievements := {
  current : list Achievement;
  upcoming : option Upcoming;
}.

(** [titles[days] || `${days}-Day Streak`]. *)
Definition getAchievementTitle (days : Z) : string :=
  match days with
  | 7 => "ğŸ”¥ Week Warrior"
  | 14 => "âš¡ Two-Week Thunder"
  | 30 => "ğŸŒŸ Month Master"
  | 60 => "ğŸ’ª 60-Day Champion"
  | 90 => "ğŸ† Quarter Conqueror"
  | 180 => "ğŸ‘‘ Half-Year Hero"
  | 365 => "ğŸ–ï¸ Year-Long Legend"
  | _ => Js.toString days +:+ "-Day Streak"
  end%string.

Definition milestones : list Z := [7; 14; 30; 60; 90; 180; 365].

(** One step of the [forEach] that pushes the reached milestones. *)
Definition pushIfReached (currentStreak : Z) (acc : list Achievement)
    (milestone : Z) : list Achievement :=
  if bool_decide (currentStreak >= milestone)
  then acc ++ [ {| milestone := milestone;
                   title := getAchievementTitle milestone;
                   achieved := true |} ]
  else acc.

Definition getStreakAchievements (currentStreak longestStreak : Z) : Achievements :=
  let current := fold_left (pushIfReached currentStreak) milestones [] in
  let nextMilestone := Js.Array_find (λ m, bool_decide (m > currentStreak)) milestones in
  let upcoming :=
    match nextMilestone with
    | Some m =>
        if Js.truthy nextMilestone
        then Some {| upcoming_milestone := m;
                     upcoming_title := getAchievementTitle m;
                     daysRemaining := m - currentStreak |}
        else None
    | None => None
    end in
  {| current := current; upcoming := upcoming |}.

(** ** The store: the two tables behind the supabase client *)

Module Supabase.

Record PostgrestError := {
  code : string;
  message : string;
}.

(** What an awaited query resolves to: [{ data, error }]. *)
Record Response (A : Type) := {
  data : option A;
  error : option PostgrestError;
}.
Arguments data {A} _.
Arguments error {A} _.
Arguments Build_Response {A} _ _.

(** The columns of a [streak_tracking] row besides its key. *)
Record StreakCols := {
  col_current_streak : Z;
  col_longest_streak : Z;
  col_last_login_date : option date;
  col_total_login_days : Z;
}.

(** [login_history] is UNIQUE on (student_id, login_date);
    [streak_tracking] holds one row per student_id. *)
Record Db := {
  login_history : gset (string * date);
  streak_tracking : gmap string StreakCols;
}.

(** [outcomes] lists what the store answers to the coming calls, in
    order: [None] for a call that goes through, [Some e] for one that
    fails with [e]; past the end of the list every call goes through.
    [now] is the day the clock shows, [zone] the time zone the [Date]
    methods work in. *)
Record World := {
  db : Db;
  outcomes : list (option PostgrestError);
  now : date;
  zone : TimeZone;
}.

Definition Async (A : Type) : Type := World → A * World.

Definition next_outcome : Async (option PostgrestError) := λ w,
  match outcomes w with
  | [] => (None, w)
  | o :: os => (o, {| db := db w; outcomes := os; now := now w; zone := zone w |})
  end.

Definition set_db (d : Db) : Async unit := λ w,
  (tt, {| db := d; outcomes := outcomes w; now := now w; zone := zone w |}).

(** [new Date()]. *)
Definition new_Date : Async date := λ w, (now w, w).

(** The time zone of the process. *)
Definition local_zone : Async TimeZone := λ w, (zone w, w).

(** A failed call leaves the tables as they are. *)
Definition failed {A} (e : PostgrestError) : Response A :=
  {| data := None; error := Some e |}.

(** PostgREST answer of [.single()] when the result is not exactly one row. *)
Definition PGRST116 : PostgrestError :=
  {| code := "PGRST116";
     message := "JSON object requested, multiple (or no) rows returned" |}.

(** Postgres unique_violation. *)
Definition unique_violation : PostgrestError :=
  {| code := "23505";
     message := "duplicate key value violates unique constraint" |}.

(** [from('login_history').upsert({student_id, login_date},
      {onConflict: 'student_id,login_date', ignoreDuplicates: true})]. *)
Definition login_history_upsert (studentId : string) (login_date : date)
    : Async (Response unit) := λ w,
  let '(o, w1) := next_outcome w in
  match o with
  | Some e => (failed e, w1)
  | None =>
      let d := {| login_history := {[ (studentId, login_date) ]} ∪ login_history (db w1);
                  streak_tracking := streak_tracking (db w1) |} in
      ({| data := None; error := None |}, snd (set_db d w1))
  end.

(** The days recorded for a student, in the order the table gives them. *)
Definition login_dates (studentId : string) (t : gset (string * date)) : list date :=
  snd <$> filter (λ r, r.1 = studentId) (elements t).

(** The rows of [select('login_date').eq('student_id', studentId)
    .order('login_date', {ascending: false})]. *)
Definition selected_logins (studentId : string) (t : gset (string * date))
    : list LoginRow :=
  Build_LoginRow <$>
    @merge_sort date (λ a b, b ≤ a) (λ a b, decide (b ≤ a))
      (login_dates studentId t).

(** [from('login_history').select('login_date').eq('student_id', studentId)
      .order('login_date', {ascending: false})]. *)
Definition login_history_select (studentId : string)
    : Async (Response (list LoginRow)) := λ w,
  let '(o, w1) := next_outcome w in
  match o with
  | Some e => (failed e, w1)
  | None =>
      ({| data := Some (selected_logins studentId (login_history (db w1)));
          error := None |}, w1)
  end.

(** [from('login_history').select('login_date').eq('student_id', studentId)
      .eq('login_date', d).single()]. *)
Definition login_history_single (studentId : string) (d : date)
    : Async (Response LoginRow) := λ w,
  let '(o, w1) := next_outcome w in
  match o with
  | Some e => (failed e, w1)
  | None =>
      if bool_decide ((studentId, d) ∈ login_history (db w1))
      then ({| data := Some {| login_date := d |}; error := None |}, w1)
      else (failed PGRST116, w1)
  end.

Definition cols_of (r : StreakData) : StreakCols :=
  {| col_current_streak := current_streak r;
     col_longest_streak := longest_streak r;
     col_last_login_date := last_login_date r;
     col_total_login_days := total_login_days r |}.

Definition row_of (studentId : string) (c : StreakCols) : StreakData :=
  {| student_id := Some studentId;
     current_streak := col_current_streak c;
     longest_streak := col_longest_streak c;
     last_login_date := col_last_login_date c;
     total_login_days := col_total_login_days c |}.

(** Postgres not_null_violation. *)
Definition not_null_violation : PostgrestError :=
  {| code := "23502";
     message := "null value in column violates not-null constraint" |}.

(** [from('streak_tracking').upsert(row)]: the row of that student is
    replaced, or created. *)
Definition streak_tracking_upsert (r : StreakData) : Async (Response unit) := λ w,
  let '(o, w1) := next_outcome w in
  match o with
  | Some e => (failed e, w1)
  | None =>
      match student_id r with
      | None => (failed not_null_violation, w1)
      | Some studentId =>
          let d := {| login_history := login_history (db w1);
                      streak_tracking :=
                        <[studentId := cols_of r]> (streak_tracking (db w1)) |} in
          ({| data := None; error := None |}, snd (set_db d w1))
      end
  end.

(** [from('streak_tracking').insert(row)]: refused when the student
    already has a row. *)
Definition streak_tracking_insert (r : StreakData) : Async (Response unit) := λ w,
  let '(o, w1) := next_outcome w in
  match o with
  | Some e => (failed e, w1)
  | None =>
      match student_id r with
      | None => (failed not_null_violation, w1)
      | Some studentId =>
          match streak_tracking (db w1) !! studentId with
          | Some _ => (failed unique_violation, w1)
          | None =>
              let d := {| login_history := login_history (db w1);
                          streak_tracking :=
                            <[studentId := cols_of r]> (streak_tracking (db w1)) |} in
              ({| data := None; error := None |}, snd (set_db d w1))
          end
      end
  end.

(** [from('streak_tracking').select('*').eq('student_id', studentId).single()]. *)
Definition streak_tracking_single (studentId : string)
    : Async (Response StreakData) := λ w,
  let '(o, w1) := next_outcome w in
  match o with
  | Some e => (failed e, w1)
  | None =>
      match streak_tracking (db w1) !! studentId with
      | Some c => ({| data := Some (row_of studentId c); error := None |}, w1)
      | None => (failed PGRST116, w1)
      end
  end.

(** *** [try { ... } catch (error) { ... }] around awaited calls *)

(** The body of a [try] block: [inl e] when it has thrown [e]. *)
Definition Try (A : Type) : Type := World → (PostgrestError + A) * World.

Definition ret {A} (a : A) : Try A := λ w, (inr a, w).

Definition throw {A} (e : PostgrestError) : Try A := λ w, (inl e, w).

Definition bind {A B} (c : Try A) (k : A → Try B) : Try B := λ w,
  match c w with
  | (inl e, w1) => (inl e, w1)
  | (inr a, w1) => k a w1
  end.

Definition await {A} (c : Async A) : Try A := λ w,
  let '(a, w1) := c w in (inr a, w1).

Definition try_catch {A} (body : Try A) (handler : PostgrestError → A)
    : Async A := λ w,
  match body w with
  | (inl e, w1) => (handler e, w1)
  | (inr a, w1) => (a, w1)
  end.

End Supabase.

Import Supabase.

Notation "'let*' x ':=' c 'in' k" := (Supabase.bind c (λ x, k))
  (at level 10, x pattern, c at level 100, k at level 200).

(** ** The functions of streaks.js *)

(** [{ error }], the result of [recordLogin] and [updateStreak]. *)
Record ErrorResult := { result_error : option PostgrestError }.

(** [{ streakData, error }]. *)
Record StreakDataResult := {
  streakData : option StreakData;
  streakData_error : option PostgrestError;
}.

(** [{ needsMaintenance, error }]. *)
Record MaintenanceResult := {
  needsMaintenance : bool;
  needsMaintenance_error : option PostgrestError;
}.

Definition updateStreak (studentId : string) : Async ErrorResult :=
  try_catch
    (let* r := await (login_history_select studentId) in
     match error r with
     | Some loginsError => throw loginsError
     | None =>
         match data r with
         | None => ret {| result_error := None |}
         | Some logins =>
             if bool_decide (length logins = 0%nat)
             then ret {| result_error := None |}
             else
               let* d := await new_Date in
               let today := format d in
               let* tz := await local_zone in
               let* u := await (streak_tracking_upsert
                                  (streakPayload tz studentId logins today)) in
               match error u with
               | Some streakError => throw streakError
               | None => ret {| result_error := None |}
               end
         end
     end)
    (λ error, {| result_error := Some error |}).

Definition recordLogin (studentId : string) : Async ErrorResult :=
  try_catch
    (let* d := await new_Date in
     let today := format d in
     let* r := await (login_history_upsert studentId today) in
     match error r with
     | Some loginError => throw loginError
     | None =>
         let* _ := await (updateStreak studentId) in
         ret {| result_error := None |}
     end)
    (λ error, {| result_error := Some error |}).

(** The row [getStreakData] and [signUpStudent] insert; it names no
    [last_login_date]. *)
Definition initialRow (studentId : string) : StreakData :=
  {| student_id := Some studentId;
     current_streak := 0;
     longest_streak := 0;
     last_login_date := None;
     total_login_days := 0 |}.

(** The [streakData] literal [getStreakData] returns after the insert. *)
Definition zeroStreakData : StreakData :=
  {| student_id := None;
     current_streak := 0;
     longest_streak := 0;
     last_login_date := None;
     total_login_days := 0 |}.

Definition getStreakData (studentId : string) : Async StreakDataResult :=
  try_catch
    (let* r := await (streak_tracking_single studentId) in
     let* _ :=
       match error r with
       | Some e =>
           if bool_decide (code e ≠ "PGRST116")
           then throw e
           else ret tt
       | None => ret tt
       end in
     match data r with
     | None =>
         let* i := await (streak_tracking_insert (initialRow studentId)) in
         match error i with
         | Some initError => throw initError
         | None => ret {| streakData := Some zeroStreakData; streakData_error := None |}
         end
     | Some d => ret {| streakData := Some d; streakData_error := None |}
     end)
    (λ error, {| streakData := None; streakData_error := Some error |}).

Definition needsStreakMaintenance (studentId : string) : Async MaintenanceResult :=
  try_catch
    (let* d := await new_Date in
     let today := format d in
     let* d' := await new_Date in
     let yesterday := format (subDays d' 1) in
     let* t := await (login_history_single studentId today) in
     let todayLogin := data t in
     let* y := await (login_history_single studentId yesterday) in
     let yesterdayLogin := data y in
     let needsMaintenance :=
       Js.truthy_object yesterdayLogin && negb (Js.truthy_object todayLogin) in
     ret {| needsMaintenance := needsMaintenance; needsMaintenance_error := None |})
    (λ error, {| needsMaintenance := false; needsMaintenance_error := Some error |}).

(** Step 4 of [signUpStudent] in src/api/auth.js: the row a new student
    starts with. *)
Definition signUpStudent_initStreak (userId : string) : Async (Response unit) :=
  streak_tracking_insert (initialRow userId).

(** ** Calls, and the states the application can reach *)

(** The calls that touch the two tables. *)
Inductive Call :=
  | RecordLogin (studentId : string)
  | UpdateStreak (studentId : string)
  | GetStreakData (studentId : string)
  | NeedsStreakMaintenance (studentId : string)
  | SignUpStudent (userId : string).

(** The world a call leaves behind. *)
Definition after (c : Call) (w : World) : World :=
  match c with
  | RecordLogin s => snd (recordLogin s w)
  | UpdateStreak s => snd (updateStreak s w)
  | GetStreakData s => snd (getStreakData s w)
  | NeedsStreakMaintenance s => snd (needsStreakMaintenance s w)
  | SignUpStudent s => snd (signUpStudent_initStreak s w)
  end.

Definition emptyDb : Db := {| login_history := ∅; streak_tracking := ∅ |}.

(** From empty tables, calls are made while the clock moves and the store
    answers or fails as it likes. *)
Inductive reachable : World → Prop :=
  | reachable_empty os t z :
      reachable {| db := emptyDb; outcomes := os; now := t; zone := z |}
  | reachable_call c w :
      reachable w → reachable (after c w)
  | reachable_env w os t z :
      reachable w → reachable {| db := db w; outcomes := os; now := t; zone := z |}.

(** The store answers the next [n] calls. *)
Definition answers (n : nat) (w : World) : Prop :=
  forallb (λ o, match o with None => true | Some _ => false end)
    (take n (outcomes w)) = true.

Definition zeroCols : StreakCols := cols_of zeroStreakData.

(** [longestStreak >= currentStreak] and [totalLoginDays >= longestStreak]. *)
Definition summary_invariant (c : StreakCols) : Prop :=
  col_current_streak c ≤ col_longest_streak c ∧
  col_longest_streak c ≤ col_total_login_days c.

(** Worlds used in the examples below. *)
Definition student1 : string := "s1".

(** A zone whose offset is always zero. *)
Definition UTC : TimeZone := λ _, 0.

(** America/New_York around the end of daylight saving time in 2024:
    UTC-4 until 2024-11-03 06:00 UTC, UTC-5 from then on. *)
Definition America_New_York : TimeZone := λ t,
  if t <? 1730613600000 then -14400000 else -18000000.

Definition fresh_world : World :=
  {| db := emptyDb; outcomes := []; now := 10; zone := UTC |}.

Definition store_down : PostgrestError :=
  {| code := "503"; message := "Service Unavailable" |}.

(** The login days 2024-11-02, 2024-11-03 and 2024-11-04 of one student,
    seen from New York on 2024-11-05 and on 2024-11-07. *)
Definition new_york_nov_5 : World :=
  {| db := {| login_history :=
                {[ (student1, 20029); (student1, 20030); (student1, 20031) ]};
              streak_tracking := ∅ |};
     outcomes := []; now := 20032; zone := America_New_York |}.

Definition new_york_nov_7 : World :=
  {| db := db new_york_nov_5; outcomes := []; now := 20034;
     zone := America_New_York |}.

Definition yesterday_only : World :=
  {| db := {| login_history := {[ (student1, 9) ]}; streak_tracking := ∅ |};
     outcomes := []; now := 10; zone := UTC |}.

(** The order [Array_sort] establishes under the comparator
    [(a, b) => new Date(b) - new Date(a)]. *)
Definition comparator_order : relation date :=
  λ a b, Date_parse b - Date_parse a ≤ 0.

(** The day difference the two loops and the gap test take between two
    day strings: [differenceInDays(new Date(a), new Date(b))]. *)
Definition daysDiff (tz : TimeZone) (a b : date) : Z :=
  differenceInDays tz (Date_parse a) (Date_parse b).

(** The two scans over an arbitrary day difference [diff]; with
    [daysDiff] they are what the loops of [updateStreak] compute. *)
Section ScansBy.

Variable diff : date → date → Z.

Fixpoint leading_pairs_by (sorted : list date) : Z :=
  match sorted with
  | d1 :: ((d2 :: _) as rest) =>
      if bool_decide (diff d1 d2 = 1) then 1 + leading_pairs_by rest else 0
  | _ => 0
  end.

Definition currentStreak_by (sorted : list date) (today : date) : Z :=
  match sorted with
  | [] => 0
  | mostRecent :: _ =>
      if bool_decide (diff today mostRecent ≤ 1)
      then 1 + leading_pairs_by sorted
      else 0
  end.

Fixpoint scan_by (run best : Z) (sorted : list date) : Z :=
  match sorted with
  | d1 :: ((d2 :: _) as rest) =>
      if bool_decide (diff d1 d2 = 1)
      then scan_by (run + 1) (Z.max best (run + 1)) rest
      else scan_by 1 best rest
  | _ => best
  end.

End ScansBy.

(** The zone has one and the same offset at midnight UTC of each of
    [days]. *)
Definition steady (tz : TimeZone) (days : list date) : Prop :=
  ∃ o, ∀ d, d ∈ days → utcOffset tz (Date_parse d) = o.

(** ** The specification's wording of the streak computation

    These definitions follow the text of the specification, not the code;
    the theorems below compare them with [computeCurrentStreak] and
    [computeLongestStreak]. *)

Module Spec.

(** "Dates sorted descending": [sorted] lists the dates [dates], newest
    first. *)
Definition sorted_descending (dates sorted : list date) : Prop :=
  StronglySorted (λ a b, b ≤ a) sorted ∧ sorted ≡ₚ dates.

(** The number of adjacent pairs at the head of [sorted] whose difference
    is exactly one day, up to the first pair that is not. *)
Fixpoint leading_pairs (sorted : list date) : Z :=
  match sorted with
  | d1 :: ((d2 :: _) as rest) =>
      if bool_decide (d1 - d2 = 1) then 1 + leading_pairs rest else 0
  | _ => 0
  end.

(** Step 3: the gap rule. *)
Definition currentStreak (sorted : list date) (today : date) : Z :=
  match sorted with
  | [] => 0
  | mostRecent :: _ =>
      let gap := today - mostRecent in
      if bool_decide (gap ≤ 1) then 1 + leading_pairs sorted else 0
  end.

(** Step 4: one scan keeping the running run length [run] and the
    maximum seen [best]. *)
Fixpoint scan (run best : Z) (sorted : list date) : Z :=
  match sorted with
  | d1 :: ((d2 :: _) as rest) =>
      if bool_decide (d1 - d2 = 1)
      then scan (run + 1) (Z.max best (run + 1)) rest
      else scan 1 best rest
  | _ => best
  end.

Definition scanMaximum (sorted : list date) : Z := scan 1 1 sorted.

Definition longestStreak (sorted : list date) (today : date) : Z :=
  Z.max (scanMaximum sorted) (currentStreak sorted today).

End Spec.

(** ** The other readers of the tables *)

(** What a [null.map(...)] or a [null.current_streak] throws inside a
    [try]: a [TypeError], which carries a message and no [code]. *)
Definition TypeError (message : string) : PostgrestError :=
  {| code := ""; message := message |}.

(** [from('login_history').select('login_date').eq('student_id', studentId)
      .gte('login_date', startDate).order('login_date', {ascending: true})]. *)
Definition login_history_select_since (studentId : string) (startDate : date)
    : Async (Response (list LoginRow)) := λ w,
  let '(o, w1) := next_outcome w in
  match o with
  | Some e => (failed e, w1)
  | None =>
      let rows :=
        Build_LoginRow <$>
          @merge_sort date (λ a b, a ≤ b) (λ a b, decide (a ≤ b))
            (filter (λ d, startDate ≤ d)
               (login_dates studentId (login_history (db w1)))) in
      ({| data := Some rows; error := None |}, w1)
  end.

(** [{ loginDates, error }]. *)
Record LoginCalendarResult := {
  loginDates : option (list date);
  loginDates_error : option PostgrestError;
}.

(** [getLoginCalendar(studentId, days = 90)]; the default is supplied by
    the caller. *)
Definition getLoginCalendar (studentId : string) (days : Z)
    : Async LoginCalendarResult :=
  try_catch
    (let* d := await new_Date in
     let startDate := format (subDays d days) in
     let* r := await (login_history_select_since studentId startDate) in
     match error r with
     | Some e => throw e
     | None =>
         match data r with
         | None => throw (TypeError "Cannot read properties of null (reading 'map')")
         | Some rows =>
             let loginDates := map login_date rows in
             ret {| loginDates := Some loginDates; loginDates_error := None |}
         end
     end)
    (λ error, {| loginDates := None; loginDates_error := Some error |}).

(** The [stats] object of [getStreakStats]. *)
Record Stats := {
  stats_currentStreak : Z;
  stats_longestStreak : Z;
  stats_totalLoginDays : Z;
  stats_lastLoginDate : option date;
  stats_loginDates : option (list date);
}.

(** [{ stats, error }]. *)
Record StatsResult := {
  stats : option Stats;
  stats_error : option PostgrestError;
}.

Definition getStreakStats (studentId : string) : Async StatsResult :=
  try_catch
    (let* r := await (getStreakData studentId) in
     match streakData_error r with
     | Some streakError => throw streakError
     | None =>
         let* c := await (getLoginCalendar studentId 90) in
         match loginDates_error c with
         | Some calendarError => throw calendarError
         | None =>
             match streakData r with
             | None =>
                 throw (TypeError
                   "Cannot read properties of null (reading 'current_streak')")
             | Some sd =>
                 ret {| stats :=
                          Some {| stats_currentStreak := current_streak sd;
                                  stats_longestStreak := longest_streak sd;
                                  stats_totalLoginDays := total_login_days sd;
                                  stats_lastLoginDate := last_login_date sd;
                                  stats_loginDates := loginDates c |};
                        stats_error := None |}
             end
         end
     end)
    (λ error, {| stats := None; stats_error := Some error |}).

(** [{ totalLoginDays, loginDates, error }] of [getLoginConsistency] in
    src/api/moodTracker.js. *)
Record LoginConsistencyResult := {
  totalLoginDays : Z;
  consistency_loginDates : option (list LoginRow);
  consistency_error : option PostgrestError;
}.

Definition getLoginConsistency (studentId : string) : Async LoginConsistencyResult :=
  try_catch
    (let* r := await (login_history_select studentId) in
     match error r with
     | Some e => throw e
     | None =>
         match data r with
         | None => throw (TypeError "Cannot read properties of null (reading 'length')")
         | Some rows =>
             let totalLoginDays := Z.of_nat (length rows) in
             ret {| totalLoginDays := totalLoginDays;
                    consistency_loginDates := Some rows;
                    consistency_error := None |}
         end
     end)
    (λ error, {| totalLoginDays := 0;
                 consistency_loginDates := None;
                 consistency_error := Some error |}).

(** [n] consecutive days ending at [d] are all among [days]. *)
Definition consecutive_days (days : list date) (d : date) (n : Z) : Prop :=
  ∀ i, 0 ≤ i < n → d - i ∈ days.

(** Newest first, and no day twice. *)
Definition strictly_descending (l : list date) : Prop :=
  StronglySorted (λ a b, b < a) l.

(** Worlds used in the examples of the second part. *)
Definition three_days : World :=
  {| db := {| login_history :=
                {[ (student1, 9); (student1, 8); (student1, 5); ("s2"%string, 9) ]};
              streak_tracking := ∅ |};
     outcomes := []; now := 10; zone := UTC |}.

Definition read_fails : World :=
  {| db := db three_days; outcomes := [Some store_down]; now := 10; zone := UTC |}.

Definition yesterday_and_before : World :=
  {| db := {| login_history := {[ (student1, 9); (student1, 8); (student1, 5) ]};
              streak_tracking := ∅ |};
     outcomes := []; now := 10; zone := UTC |}.

(** A summary row that is sound for the login rows next to it. *)
Definition row_sound (k : string) (c : StreakCols) (lh : gset (string * date)) : Prop :=
  0 ≤ col_current_streak c
  ∧ col_current_streak c ≤ col_longest_streak c
  ∧ col_longest_streak c ≤ col_total_login_days c
  ∧ col_total_login_days c ≤ Z.of_nat (size (filter (λ r, r.1 = k) lh)).

Definition today_read_fails : World :=
  {| db := {| login_history := {[ (student1, 9); (student1, 10) ]};
              streak_tracking := ∅ |};
     outcomes := [Some store_down]; now := 10; zone := UTC |}.

(** The student a call is about. *)
Definition subject (c : Call) : string :=
  match c with
  | RecordLogin s | UpdateStreak s | GetStreakData s
  | NeedsStreakMaintenance s | SignUpStudent s => s
  end.

(** * Proofs *)

(** ** Sorting *)

Local Instance comparator_order_trans : Transitive comparator_order.
Proof.
  unfold comparator_order, Date_parse, MILLISECONDS_IN_DAY. intros a b c ? ?. lia.
Qed.

Local Instance comparator_order_total : Total comparator_order.
Proof.
  unfold comparator_order, Date_parse, MILLISECONDS_IN_DAY. intros a b. lia.
Qed.

Local Instance newest_first_antisymm : AntiSymm (=) (λ a b : date, b ≤ a).
Proof. intros a b ? ?. lia. Qed.

Lemma comparator_order_newest_first l :
  StronglySorted comparator_order l → StronglySorted (λ a b, b ≤ a) l.
Proof.
  induction 1 as [|x l Hs IH Hall]; constructor; [done|].
  eapply Forall_impl; [exact Hall|].
  unfold comparator_order, Date_parse, MILLISECONDS_IN_DAY. intros y ?. simpl. lia.
Qed.

Lemma sortDates_sorted logins :
  Spec.sorted_descending (map login_date logins) (sortDates logins).
Proof.
  unfold sortDates, Js.Array_sort. split.
  - apply comparator_order_newest_first.
    apply (StronglySorted_merge_sort comparator_order).
  - apply (merge_sort_Permutation comparator_order).
Qed.

Lemma sorted_descending_unique dates s1 s2 :
  Spec.sorted_descending dates s1 → Spec.sorted_descending dates s2 → s1 = s2.
Proof.
  intros [Hs1 Hp1] [Hs2 Hp2].
  apply (StronglySorted_unique (λ a b : date, b ≤ a)); [done..|].
  by rewrite Hp1, Hp2.
Qed.

Lemma sortDates_length logins : length (sortDates logins) = length logins.
Proof.
  destruct (sortDates_sorted logins) as [_ Hp].
  by rewrite Hp, length_map.
Qed.

(** ** The two loops against the scans of the specification *)

Lemma leading_pairs_step d1 d2 rest :
  Spec.leading_pairs (d1 :: d2 :: rest) =
  if bool_decide (d1 - d2 = 1) then 1 + Spec.leading_pairs (d2 :: rest) else 0.
Proof. reflexivity. Qed.

Lemma scan_step run best d1 d2 rest :
  Spec.scan run best (d1 :: d2 :: rest) =
  if bool_decide (d1 - d2 = 1)
  then Spec.scan (run + 1) (Z.max best (run + 1)) (d2 :: rest)
  else Spec.scan 1 best (d2 :: rest).
Proof. reflexivity. Qed.

Lemma leading_pairs_by_step diff d1 d2 rest :
  leading_pairs_by diff (d1 :: d2 :: rest) =
  if bool_decide (diff d1 d2 = 1) then 1 + leading_pairs_by diff (d2 :: rest) else 0.
Proof. reflexivity. Qed.

Lemma scan_by_step diff run best d1 d2 rest :
  scan_by diff run best (d1 :: d2 :: rest) =
  if bool_decide (diff d1 d2 = 1)
  then scan_by diff (run + 1) (Z.max best (run + 1)) (d2 :: rest)
  else scan_by diff 1 best (d2 :: rest).
Proof. reflexivity. Qed.

Section LoopLemmas.

Variable tz : TimeZone.
Variable l : list date.

(** Where the loop stands at index [i ≥ 1]: the pair it is about to
    compare heads the suffix [drop (i - 1) l]. *)
Lemma drop_pair (i : nat) :
  (1 ≤ i)%nat → (i < length l)%nat →
  drop (i - 1) l = (l !!! (i - 1)%nat) :: (l !!! i) :: drop (S i) l.
Proof.
  intros Hi Hlt.
  destruct (lookup_lt_is_Some_2 l (i - 1)) as [x Hx]; [lia|].
  destruct (lookup_lt_is_Some_2 l i) as [y Hy]; [lia|].
  rewrite (list_lookup_total_correct _ _ _ Hx), (list_lookup_total_correct _ _ _ Hy).
  rewrite (drop_S _ _ _ Hx).
  replace (S (i - 1)) with i by lia.
  by rewrite (drop_S _ _ _ Hy).
Qed.

Lemma drop_head (i : nat) :
  (i < length l)%nat → drop i l = (l !!! i) :: drop (S i) l.
Proof.
  intros Hlt. destruct (lookup_lt_is_Some_2 l i) as [y Hy]; [lia|].
  rewrite (list_lookup_total_correct _ _ _ Hy). by apply drop_S.
Qed.

Lemma drop_short (i : nat) :
  (1 ≤ i)%nat → (length l ≤ i)%nat →
  drop (i - 1) l = [] ∨ ∃ x, drop (i - 1) l = [x].
Proof.
  intros Hi Hge.
  destruct (drop (i - 1) l) as [|x [|y r]] eqn:E; [by left|by right; exists x|].
  exfalso. apply (f_equal length) in E. rewrite length_drop in E. simpl in E. lia.
Qed.

Lemma currentStreak_loop_by (fuel i : nat) (cs : Z) :
  (1 ≤ i)%nat → (length l ≤ fuel + i)%nat →
  currentStreak_loop tz l fuel i cs
    = cs + leading_pairs_by (daysDiff tz) (drop (i - 1) l).
Proof.
  revert i cs. induction fuel as [|fuel IH]; intros i cs Hi Hfuel; simpl.
  - destruct (drop_short i) as [-> | [x ->]]; simpl; lia.
  - case_bool_decide as Hlt.
    + rewrite (drop_pair i Hi Hlt), leading_pairs_by_step.
      unfold daysDiff. case_bool_decide as Hd.
      * rewrite IH by lia. replace (S i - 1)%nat with i by lia.
        rewrite (drop_head i Hlt). fold (daysDiff tz). lia.
      * lia.
    + destruct (drop_short i) as [-> | [x ->]]; simpl; lia.
Qed.

Lemma longestStreak_loop_by (fuel i : nat) (temp best : Z) :
  (1 ≤ i)%nat → (length l ≤ fuel + i)%nat →
  longestStreak_loop tz l fuel i temp best
    = scan_by (daysDiff tz) temp best (drop (i - 1) l).
Proof.
  revert i temp best. induction fuel as [|fuel IH]; intros i temp best Hi Hfuel; simpl.
  - by destruct (drop_short i) as [-> | [x ->]]; [done|lia|..].
  - case_bool_decide as Hlt.
    + rewrite (drop_pair i Hi Hlt), scan_by_step.
      unfold daysDiff. case_bool_decide as Hd.
      * rewrite IH by lia. replace (S i - 1)%nat with i by lia.
        by rewrite (drop_head i Hlt).
      * rewrite IH by lia. replace (S i - 1)%nat with i by lia.
        by rewrite (drop_head i Hlt).
    + by destruct (drop_short i) as [-> | [x ->]]; [done|lia|..].
Qed.

End LoopLemmas.

(** The two computations of [updateStreak] are the two scans, taken with
    the day difference of the zone. *)
Lemma computeCurrentStreak_by tz logins today :
  computeCurrentStreak tz logins today
    = currentStreak_by (daysDiff tz) (sortDates logins) today.
Proof.
  unfold computeCurrentStreak, currentStreak_by.
  destruct (sortDates logins) as [|d sorted] eqn:E; [done|].
  cbn [lookup list_lookup]. fold (daysDiff tz today d).
  case_bool_decide; [|done].
  rewrite currentStreak_loop_by by (simpl; lia).
  done.
Qed.

Lemma computeLongestStreak_by tz logins today :
  computeLongestStreak tz logins today
    = Z.max (scan_by (daysDiff tz) 1 1 (sortDates logins))
            (currentStreak_by (daysDiff tz) (sortDates logins) today).
Proof.
  unfold computeLongestStreak.
  rewrite computeCurrentStreak_by, longestStreak_loop_by by lia.
  done.
Qed.

(** Bounds that hold whatever the day difference is. *)
Lemma leading_pairs_by_bounds diff sorted :
  0 ≤ leading_pairs_by diff sorted
  ∧ 1 + leading_pairs_by diff sorted ≤ Z.max 1 (Z.of_nat (length sorted)).
Proof.
  induction sorted as [|d1 sorted IH]; [simpl; lia|].
  destruct sorted as [|d2 rest]; [simpl; lia|].
  rewrite leading_pairs_by_step. cbn [length] in *.
  case_bool_decide; lia.
Qed.

Lemma scan_by_bounds diff sorted run best :
  1 ≤ run →
  best ≤ scan_by diff run best sorted ∧
  scan_by diff run best sorted ≤ Z.max best (run + Z.of_nat (length sorted) - 1).
Proof.
  revert run best. induction sorted as [|d1 sorted IH]; intros run best Hrun; [simpl; lia|].
  destruct sorted as [|d2 rest]; [simpl; lia|].
  rewrite scan_by_step. cbn [length] in *.
  case_bool_decide.
  - specialize (IH (run + 1) (Z.max best (run + 1))). lia.
  - specialize (IH 1 best). lia.
Qed.

Lemma leading_pairs_by_le_scan_by diff sorted run best :
  1 ≤ run → run ≤ best →
  run + leading_pairs_by diff sorted ≤ scan_by diff run best sorted.
Proof.
  revert run best. induction sorted as [|d1 sorted IH]; intros run best H1 Hle;
    [simpl; lia|].
  destruct sorted as [|d2 rest]; [simpl; lia|].
  rewrite leading_pairs_by_step, scan_by_step. case_bool_decide.
  - specialize (IH (run + 1) (Z.max best (run + 1))). lia.
  - pose proof (scan_by_bounds diff (d2 :: rest) 1 best) as [Hb _]; lia.
Qed.

Lemma currentStreak_by_le_scan_by diff sorted today :
  currentStreak_by diff sorted today ≤ scan_by diff 1 1 sorted.
Proof.
  unfold currentStreak_by.
  pose proof (leading_pairs_by_le_scan_by diff sorted 1 1) as Hle.
  pose proof (scan_by_bounds diff sorted 1 1) as [Hb _]; [lia|].
  destruct sorted as [|d rest]; [lia|]. case_bool_decide; lia.
Qed.

(** With the difference of the day numbers the scans are those of the
    specification. *)
Lemma leading_pairs_by_spec diff sorted :
  (∀ a b, a ∈ sorted → b ∈ sorted → diff a b = a - b) →
  leading_pairs_by diff sorted = Spec.leading_pairs sorted.
Proof.
  induction sorted as [|d1 sorted IH]; intros Hdiff; [done|].
  destruct sorted as [|d2 rest]; [done|].
  rewrite leading_pairs_by_step, leading_pairs_step.
  rewrite (Hdiff d1 d2) by (rewrite !elem_of_cons; auto).
  rewrite IH; [done|]. intros a b Ha Hb. apply Hdiff; by right.
Qed.

Lemma scan_by_spec diff sorted : ∀ run best,
  (∀ a b, a ∈ sorted → b ∈ sorted → diff a b = a - b) →
  scan_by diff run best sorted = Spec.scan run best sorted.
Proof.
  induction sorted as [|d1 sorted IH]; intros run best Hdiff; [done|].
  destruct sorted as [|d2 rest]; [done|].
  rewrite scan_by_step, scan_step.
  rewrite (Hdiff d1 d2) by (rewrite !elem_of_cons; auto).
  rewrite !IH; [done|..]; intros a b Ha Hb; apply Hdiff; by right.
Qed.

Lemma currentStreak_by_spec diff sorted today :
  (∀ a b, a ∈ today :: sorted → b ∈ today :: sorted → diff a b = a - b) →
  currentStreak_by diff sorted today = Spec.currentStreak sorted today.
Proof.
  intros Hdiff. unfold currentStreak_by, Spec.currentStreak.
  destruct sorted as [|m rest]; [done|].
  rewrite (Hdiff today m) by (rewrite !elem_of_cons; auto).
  rewrite leading_pairs_by_spec; [done|].
  intros a b Ha Hb. apply Hdiff; by right.
Qed.

(** ** The day difference of date-fns between two midnights UTC *)

Ltac case_eqb :=
  match goal with
  | |- context [?x =? ?y] => destruct (Z.eqb_spec x y)
  end.

(** Where the zone has the same offset at both midnights, the difference
    is that of the day numbers. *)
Lemma daysDiff_same_offset tz (a b : date) :
  utcOffset tz (Date_parse a) = utcOffset tz (Date_parse b) →
  daysDiff tz a b = a - b.
Proof.
  unfold daysDiff, differenceInDays, differenceInCalendarDays, localDay,
    localTime, compareLocalAsc.
  intros ->. set (o := utcOffset tz (Date_parse b)).
  unfold Date_parse, MILLISECONDS_IN_DAY.
  replace ((a * 86400000 + o) / 86400000 - (b * 86400000 + o) / 86400000)
    with (a - b).
  2: { rewrite !(Z.add_comm _ o), !Z.div_add by lia. lia. }
  destruct (Z.lt_trichotomy a b) as [H|[H|H]].
  - rewrite (Z.sgn_neg (a * 86400000 + o - (b * 86400000 + o))) by lia.
    rewrite Z.abs_neq by lia.
    replace (a * 86400000 + o - -1 * - (a - b) * 86400000 - (b * 86400000 + o))
      with 0 by lia.
    case_eqb; lia.
  - subst b. rewrite !Z.sub_diag. reflexivity.
  - rewrite (Z.sgn_pos (a * 86400000 + o - (b * 86400000 + o))) by lia.
    rewrite Z.abs_eq by lia.
    replace (a * 86400000 + o - 1 * (a - b) * 86400000 - (b * 86400000 + o))
      with 0 by lia.
    case_eqb; lia.
Qed.

Lemma daysDiff_steady tz days (a b : date) :
  steady tz days → a ∈ days → b ∈ days → daysDiff tz a b = a - b.
Proof.
  intros [o Ho] Ha Hb. apply daysDiff_same_offset. by rewrite (Ho a), (Ho b).
Qed.

Lemma utcOffset_range tz t : -43200000 ≤ utcOffset tz t ≤ 50400000.
Proof. unfold utcOffset. lia. Qed.

(** From a day to the same or a later day there is no full day forward,
    in any zone. *)
Lemma daysDiff_not_after tz (a b : date) : a ≤ b → daysDiff tz a b ≤ 0.
Proof.
  intros Hab.
  unfold daysDiff, differenceInDays, differenceInCalendarDays, localDay,
    localTime, compareLocalAsc.
  destruct (decide (a = b)) as [->|Hne].
  { rewrite !Z.sub_diag. cbn. done. }
  pose proof (utcOffset_range tz (Date_parse a)) as Ha.
  pose proof (utcOffset_range tz (Date_parse b)) as Hb.
  set (A := Date_parse a + utcOffset tz (Date_parse a)) in *.
  set (B := Date_parse b + utcOffset tz (Date_parse b)) in *.
  assert (HAB : A - B ≤ 7200000).
  { subst A B. unfold Date_parse, MILLISECONDS_IN_DAY in *. lia. }
  unfold MILLISECONDS_IN_DAY.
  destruct (Z.lt_trichotomy A B) as [H|[H|H]].
  - rewrite (Z.sgn_neg (A - B)) by lia.
    destruct (Z.eqb_spec (Z.sgn (A - -1 * Z.abs (A / 86400000 - B / 86400000) * 86400000 - B))
                (- -1)) as [E|E]; [|lia].
    assert (Z.abs (A / 86400000 - B / 86400000) ≠ 0); [|lia].
    intros H0. rewrite H0 in E. lia.
  - rewrite H, !Z.sub_diag. cbn. done.
  - rewrite (Z.sgn_pos (A - B)) by lia.
    assert (HD : A / 86400000 - B / 86400000 = 0 ∨ A / 86400000 - B / 86400000 = 1).
    { Z.div_mod_to_equations. lia. }
    destruct HD as [-> | ->]; case_eqb; lia.
Qed.

Lemma sortDates_elem logins (d : date) :
  d ∈ sortDates logins ↔ d ∈ map login_date logins.
Proof. destruct (sortDates_sorted logins) as [_ Hp]. by rewrite Hp. Qed.

(** Where the zone is steady over today and the login days,
    [computeCurrentStreak] is the gap rule of the specification applied
    to the sorted dates, and [computeLongestStreak] its scan. *)
Lemma computeCurrentStreak_spec tz logins today :
  steady tz (today :: map login_date logins) →
  computeCurrentStreak tz logins today = Spec.currentStreak (sortDates logins) today.
Proof.
  intros Hsteady. rewrite computeCurrentStreak_by.
  apply currentStreak_by_spec. intros a b Ha Hb.
  apply (daysDiff_steady tz _ a b Hsteady).
  - apply elem_of_cons in Ha as [->|Ha]; [left|right; by apply sortDates_elem].
  - apply elem_of_cons in Hb as [->|Hb]; [left|right; by apply sortDates_elem].
Qed.

Lemma computeLongestStreak_spec tz logins today :
  steady tz (today :: map login_date logins) →
  computeLongestStreak tz logins today = Spec.longestStreak (sortDates logins) today.
Proof.
  intros Hsteady. rewrite computeLongestStreak_by.
  unfold Spec.longestStreak, Spec.scanMaximum.
  assert (Hdiff : ∀ a b, a ∈ today :: sortDates logins → b ∈ today :: sortDates logins →
                         daysDiff tz a b = a - b).
  { intros a b Ha Hb. apply (daysDiff_steady tz _ a b Hsteady).
    - apply elem_of_cons in Ha as [->|Ha]; [left|right; by apply sortDates_elem].
    - apply elem_of_cons in Hb as [->|Hb]; [left|right; by apply sortDates_elem]. }
  rewrite currentStreak_by_spec by done.
  rewrite scan_by_spec; [done|]. intros a b Ha Hb. apply Hdiff; by right.
Qed.

(** Bounds on the scans. *)
Lemma leading_pairs_bounds sorted :
  0 ≤ Spec.leading_pairs sorted ∧ 1 + Spec.leading_pairs sorted ≤ Z.max 1 (Z.of_nat (length sorted)).
Proof.
  induction sorted as [|d1 sorted IH]; [simpl; lia|].
  destruct sorted as [|d2 rest]; [simpl; lia|].
  rewrite leading_pairs_step. cbn [length] in *.
  case_bool_decide; lia.
Qed.

Lemma scan_bounds sorted run best :
  1 ≤ run →
  best ≤ Spec.scan run best sorted ∧
  Spec.scan run best sorted ≤ Z.max best (run + Z.of_nat (length sorted) - 1).
Proof.
  revert run best. induction sorted as [|d1 sorted IH]; intros run best Hrun; [simpl; lia|].
  destruct sorted as [|d2 rest]; [simpl; lia|].
  rewrite scan_step. cbn [length] in *.
  case_bool_decide.
  - specialize (IH (run + 1) (Z.max best (run + 1))). lia.
  - specialize (IH 1 best). lia.
Qed.

(** ** Runs against the store *)

Ltac run_store :=
  unfold recordLogin, updateStreak, getStreakData, needsStreakMaintenance,
    signUpStudent_initStreak,
    try_catch, Supabase.bind, await, Supabase.ret, throw,
    login_history_upsert, login_history_select, login_history_single,
    streak_tracking_upsert, streak_tracking_insert, streak_tracking_single,
    next_outcome, set_db, new_Date, local_zone, format, failed in *;
  cbn [fst snd db outcomes now zone data error result_error
       login_history streak_tracking] in *.

Lemma selected_logins_dates s t :
  map login_date (selected_logins s t) ≡ₚ login_dates s t.
Proof.
  unfold selected_logins.
  assert (Hid : ∀ l : list date, map login_date (Build_LoginRow <$> l) = l).
  { induction l as [|x l IH]; [done|]. simpl. by f_equal. }
  rewrite Hid. apply merge_sort_Permutation.
Qed.

Lemma selected_logins_nil s t :
  selected_logins s t = [] ↔ login_dates s t = [].
Proof.
  split; intros H.
  - apply Permutation_nil_r. rewrite <- selected_logins_dates, H. done.
  - apply (f_equal length) in H.
    pose proof (Permutation_length (selected_logins_dates s t)) as Hl.
    rewrite length_map in Hl. apply length_zero_iff_nil. simpl in H. lia.
Qed.

Lemma updateStreak_run s w :
  updateStreak s w =
    match outcomes w with
    | Some e :: os =>
        ({| result_error := Some e |},
         {| db := db w; outcomes := os; now := now w; zone := zone w |})
    | os =>
        let logins := selected_logins s (login_history (db w)) in
        if bool_decide (length logins = 0%nat)
        then ({| result_error := None |},
              {| db := db w; outcomes := tail os; now := now w; zone := zone w |})
        else
          match tail os with
          | Some e :: os' =>
              ({| result_error := Some e |},
               {| db := db w; outcomes := os'; now := now w; zone := zone w |})
          | os' =>
              ({| result_error := None |},
               {| db := {| login_history := login_history (db w);
                           streak_tracking :=
                             <[s := cols_of (streakPayload (zone w) s logins (now w))]>
                               (streak_tracking (db w)) |};
                  outcomes := tail os'; now := now w; zone := zone w |})
          end
    end.
Proof.
  destruct w as [d os t z]. run_store.
  destruct os as [|[e|] os]; cbn; try done.
  - case_bool_decide; [by destruct d|done].
  - case_bool_decide; [done|]. by destruct os as [|[e|] os].
Qed.

Ltac decide_by_lia :=
  repeat match goal with
  | |- context [bool_decide ?P] =>
      first [ rewrite (bool_decide_eq_true_2 P) by lia
            | rewrite (bool_decide_eq_false_2 P) by lia ]
  | |- context [decide ?P] =>
      first [ rewrite (decide_True (P:=P)) by lia
            | rewrite (decide_False (P:=P)) by lia ]
  end.

Lemma sortDates_of_sorted logins sorted :
  Spec.sorted_descending (map login_date logins) sorted → sortDates logins = sorted.
Proof. intros H. eapply sorted_descending_unique; [apply sortDates_sorted|done]. Qed.

(** What the successful run of [updateStreak] leaves in the student's row. *)
Lemma updateStreak_row s w :
  answers 2 w →
  login_dates s (login_history (db w)) ≠ [] →
  fst (updateStreak s w) = {| result_error := None |} ∧
  streak_tracking (db (snd (updateStreak s w))) !! s =
    Some (cols_of (streakPayload (zone w) s (selected_logins s (login_history (db w))) (now w))).
Proof.
  intros Hans Hne. rewrite updateStreak_run.
  assert (Hlen : length (selected_logins s (login_history (db w))) ≠ 0%nat).
  { intros H0. apply Hne, selected_logins_nil. by apply length_zero_iff_nil. }
  unfold answers in Hans.
  destruct (outcomes w) as [|[e|] [|[e'|] os]]; try discriminate; cbn;
    rewrite bool_decide_eq_false_2 by done; cbn; by rewrite lookup_insert_eq.
Qed.

Lemma selected_logins_sorted s t sorted :
  Spec.sorted_descending (login_dates s t) sorted →
  sortDates (selected_logins s t) = sorted.
Proof.
  intros [Hs Hp]. apply sortDates_of_sorted. split; [done|].
  by rewrite Hp, selected_logins_dates.
Qed.

(** ** Current and longest streak across a change of the clocks *)

(** C1 (what the code does). The day differences are taken by
    [differenceInDays] in local time between dates parsed as midnight
    UTC, so where the clocks go back the code does not count a
    one-day step. In America/New_York, with login days 2024-11-02,
    2024-11-03, 2024-11-04 and today 2024-11-05 (the dates D-3, D-2, D-1
    and D of the claim), [updateStreak] computes and writes a current
    streak of 1, where the gap rule gives 3. With login days 2024-11-01,
    2024-11-02 and today 2024-11-04 the gap is two days and the code
    computes 2, where the gap rule gives 0. *)
Theorem current_streak_cut_by_clock_change :
  computeCurrentStreak America_New_York
    [ {| login_date := 20029 |}; {| login_date := 20030 |}; {| login_date := 20031 |} ]
    20032 = 1
  ∧ Spec.currentStreak [20031; 20030; 20029] 20032 = 3
  ∧ col_current_streak <$>
      streak_tracking (db (snd (updateStreak student1 new_york_nov_5))) !! student1
    = Some 1
  ∧ computeCurrentStreak America_New_York
      [ {| login_date := 20028 |}; {| login_date := 20029 |} ] 20031 = 2
  ∧ Spec.currentStreak [20029; 20028] 20031 = 0.
Proof. vm_compute. repeat split. Qed.

(** C2 (what the code does). For the same reason the second loop resets
    its run where the clocks go back. In America/New_York, with login
    days 2024-11-02, 2024-11-03, 2024-11-04 and today 2024-11-07 (the
    dates D-5, D-4, D-3 and D of the claim), [updateStreak] computes and
    writes current streak 0 and longest streak 2, where the scan over
    one-day steps gives 3. *)
Theorem longest_streak_cut_by_clock_change :
  computeCurrentStreak America_New_York
    [ {| login_date := 20029 |}; {| login_date := 20030 |}; {| login_date := 20031 |} ]
    20034 = 0
  ∧ computeLongestStreak America_New_York
      [ {| login_date := 20029 |}; {| login_date := 20030 |}; {| login_date := 20031 |} ]
      20034 = 2
  ∧ Spec.scanMaximum [20031; 20030; 20029] = 3
  ∧ Spec.longestStreak [20031; 20030; 20029] 20034 = 3
  ∧ col_longest_streak <$>
      streak_tracking (db (snd (updateStreak student1 new_york_nov_7))) !! student1
    = Some 2.
Proof. vm_compute. repeat split. Qed.

Lemma steady_incl (tz : TimeZone) (days days' : list date) :
  (∀ d, d ∈ days' → d ∈ days) → steady tz days → steady tz days'.
Proof. intros Hincl [o Ho]. exists o. intros d Hd. by apply Ho, Hincl. Qed.

(** The rows the store returns for a student hold the student's days. *)
Lemma steady_selected (tz : TimeZone) (s : string) (lh : gset (string * date))
    (today : date) :
  steady tz (today :: login_dates s lh) →
  steady tz (today :: map login_date (selected_logins s lh)).
Proof.
  apply steady_incl. intros d. rewrite !elem_of_cons, selected_logins_dates. done.
Qed.

(** ** The summary invariant *)

Lemma streakPayload_invariant tz s logins today :
  logins ≠ [] →
  summary_invariant (cols_of (streakPayload tz s logins today)).
Proof.
  intros Hne. unfold summary_invariant. cbn.
  rewrite computeLongestStreak_by, computeCurrentStreak_by.
  unfold currentStreak_by.
  pose proof (sortDates_length logins) as Hlen.
  assert (1 ≤ Z.of_nat (length logins)) by (destruct logins; [done|simpl; lia]).
  pose proof (scan_by_bounds (daysDiff tz) (sortDates logins) 1 1 ltac:(lia)) as [Hs1 Hs2].
  pose proof (leading_pairs_by_bounds (daysDiff tz) (sortDates logins)) as [Hp1 Hp2].
  rewrite Hlen in Hs2, Hp2.
  destruct (sortDates logins) as [|d rest]; [lia|].
  case_bool_decide; lia.
Qed.

Lemma zeroCols_invariant : summary_invariant zeroCols.
Proof. unfold summary_invariant. cbn. lia. Qed.

Lemma updateStreak_writes s w k c :
  streak_tracking (db (snd (updateStreak s w))) !! k = Some c →
  streak_tracking (db w) !! k = Some c ∨
  (k = s ∧ ∃ logins, logins ≠ [] ∧
     logins = selected_logins s (login_history (db w)) ∧
     c = cols_of (streakPayload (zone w) s logins (now w))).
Proof.
  rewrite updateStreak_run.
  destruct (outcomes w) as [|[e|] os]; cbn; auto;
    case_bool_decide as Hlen; cbn; auto.
  - rewrite lookup_insert. case_decide as Hk; [|auto].
    intros [= <-]. right. split; [done|]. eexists; split; [|done].
    intros E. by rewrite E in Hlen.
  - destruct os as [|[e|] os]; cbn; auto;
      (rewrite lookup_insert; case_decide as Hk; [|auto];
       intros [= <-]; right; split; [done|]; eexists; split; [|done];
       intros E; by rewrite E in Hlen).
Qed.

Lemma recordLogin_run s w :
  recordLogin s w =
    match outcomes w with
    | Some e :: os =>
        ({| result_error := Some e |},
         {| db := db w; outcomes := os; now := now w; zone := zone w |})
    | os =>
        ({| result_error := None |},
         snd (updateStreak s
                {| db := {| login_history := {[ (s, now w) ]} ∪ login_history (db w);
                            streak_tracking := streak_tracking (db w) |};
                   outcomes := tail os; now := now w; zone := zone w |}))
    end.
Proof.
  destruct w as [d os t z]. unfold recordLogin.
  unfold try_catch, Supabase.bind, await, Supabase.ret, throw, new_Date, format,
    login_history_upsert, next_outcome, set_db, failed.
  cbn [fst snd db outcomes now data error].
  destruct os as [|[e|] os]; cbn; try done.
  - by destruct (updateStreak s _).
  - by destruct (updateStreak s _).
Qed.

(** The not-found answer of [.single()] passes the
    [error.code !== 'PGRST116'] test of [getStreakData]. *)
Lemma not_found_passes :
  bool_decide (("PGRST116" : string) ≠ "PGRST116") = false.
Proof. reflexivity. Qed.

Lemma getStreakData_writes s w k c :
  streak_tracking (db (snd (getStreakData s w))) !! k = Some c →
  streak_tracking (db w) !! k = Some c ∨ (k = s ∧ c = zeroCols).
Proof.
  destruct w as [d os t z]. run_store.
  destruct os as [|[e|] os]; cbn.
  - destruct (streak_tracking d !! s) eqn:E; cbn; auto.
    rewrite not_found_passes; cbn. rewrite E; cbn.
    rewrite lookup_insert. case_decide; [|auto]. intros [= <-]. auto.
  - case_bool_decide; cbn; auto.
    destruct os as [|[e'|] os]; cbn; auto;
      (destruct (streak_tracking d !! s) eqn:E; cbn; auto;
       rewrite lookup_insert; case_decide; [|auto]; intros [= <-]; auto).
  - destruct (streak_tracking d !! s) eqn:E; cbn; auto.
    rewrite not_found_passes; cbn.
    destruct os as [|[e'|] os]; cbn; rewrite ?E; cbn; auto;
      (rewrite lookup_insert; case_decide; [|auto]; intros [= <-]; auto).
Qed.

Lemma needsStreakMaintenance_db s w :
  db (snd (needsStreakMaintenance s w)) = db w.
Proof.
  destruct w as [d os t z]. run_store.
  destruct os as [|[e|] [|[e'|] os]]; cbn; repeat (case_bool_decide; cbn); done.
Qed.

Lemma signUpStudent_writes s w k c :
  streak_tracking (db (snd (signUpStudent_initStreak s w))) !! k = Some c →
  streak_tracking (db w) !! k = Some c ∨ (k = s ∧ c = zeroCols).
Proof.
  destruct w as [d os t z]. run_store.
  destruct os as [|[e|] os]; cbn; auto;
    (destruct (streak_tracking d !! s) eqn:E; cbn; auto;
     rewrite lookup_insert; case_decide; [|auto]; intros [= <-]; auto).
Qed.

(** C5. Every summary the engine writes satisfies
    [longestStreak >= currentStreak] and [totalLoginDays >= longestStreak]:
    the payload [updateStreak] computes satisfies it for every non-empty
    list of login rows and every [today], and after any call every row of
    the summary table is either the row that was there before or a row
    that satisfies the invariant. *)
Theorem written_summaries_satisfy_invariant :
  (∀ (tz : TimeZone) (s : string) (logins : list LoginRow) (today : date),
     logins ≠ [] →
     current_streak (streakPayload tz s logins today)
       ≤ longest_streak (streakPayload tz s logins today)
     ∧ longest_streak (streakPayload tz s logins today)
       ≤ total_login_days (streakPayload tz s logins today))
  ∧ (∀ (call : Call) (w : World) (k : string) (c : StreakCols),
       streak_tracking (db (after call w)) !! k = Some c →
       streak_tracking (db w) !! k = Some c ∨ summary_invariant c).
Proof.
  split.
  - intros tz s logins today Hne. apply (streakPayload_invariant tz s logins today Hne).
  - intros call w k c Hlook.
    assert (Hupd : ∀ s w', streak_tracking (db (snd (updateStreak s w'))) !! k = Some c →
                     streak_tracking (db w') !! k = Some c ∨ summary_invariant c).
    { intros s w' H. apply updateStreak_writes in H as [H|(_ & logins & Hne & _ & ->)];
        [by left|right; by apply streakPayload_invariant]. }
    destruct call as [s|s|s|s|s]; cbn in Hlook.
    + rewrite recordLogin_run in Hlook.
      destruct (outcomes w) as [|[e|] os]; cbn in Hlook; auto;
        apply Hupd in Hlook; exact Hlook.
    + by apply Hupd in Hlook.
    + apply getStreakData_writes in Hlook as [H|[_ ->]];
        [by left|right; apply zeroCols_invariant].
    + rewrite needsStreakMaintenance_db in Hlook. by left.
    + apply signUpStudent_writes in Hlook as [H|[_ ->]];
        [by left|right; apply zeroCols_invariant].
Qed.

Lemma written_summaries_satisfy_invariant_witness :
  streak_tracking (db fresh_world) !! student1
    = Some {| col_current_streak := 1; col_longest_streak := 1;
              col_last_login_date := Some 10; col_total_login_days := 1 |}
  ∨ summary_invariant
      {| col_current_streak := 1; col_longest_streak := 1;
         col_last_login_date := Some 10; col_total_login_days := 1 |}.
Proof.
  apply (proj2 written_summaries_satisfy_invariant (RecordLogin student1) fresh_world student1).
  vm_compute. reflexivity.
Defined.

(** ** Errors of the triggered recompute *)

(** C3 (what the code does). When the login-row upsert goes through and
    the login-history read of the triggered [updateStreak] fails with [e],
    or the read goes through and the summary write fails with [e],
    [recordLogin] still answers [{ error: null }]: the result of
    [updateStreak] is awaited and dropped. The login row is in the table
    and the summary is the one from before the call. *)
Theorem recordLogin_drops_updateStreak_error :
  ∀ (d : Db) (s : string) (e : PostgrestError)
    (rest : list (option PostgrestError)) (t : date) (z : TimeZone),
    let read_fails := {| db := d; outcomes := None :: Some e :: rest; now := t; zone := z |} in
    let write_fails := {| db := d; outcomes := None :: None :: Some e :: rest; now := t; zone := z |} in
    (fst (recordLogin s read_fails) = {| result_error := None |}
     ∧ (s, t) ∈ login_history (db (snd (recordLogin s read_fails)))
     ∧ streak_tracking (db (snd (recordLogin s read_fails))) = streak_tracking d)
    ∧ (fst (recordLogin s write_fails) = {| result_error := None |}
       ∧ (s, t) ∈ login_history (db (snd (recordLogin s write_fails)))
       ∧ streak_tracking (db (snd (recordLogin s write_fails))) = streak_tracking d).
Proof.
  intros d s e rest t z read_fails write_fails. subst read_fails write_fails.
  rewrite !recordLogin_run. cbn [outcomes fst snd db now tail].
  rewrite !updateStreak_run. cbn [outcomes fst snd db now tail login_history streak_tracking].
  split.
  - cbn. split; [done|]. split; [set_solver|done].
  - case_bool_decide; cbn; (split; [done|]); (split; [set_solver|done]).
Qed.

(** ** Empty history *)

Lemma elem_of_login_dates (s : string) (d : date) (t : gset (string * date)) :
  d ∈ login_dates s t ↔ (s, d) ∈ t.
Proof.
  unfold login_dates. rewrite list_elem_of_fmap. split.
  - intros ([s' d'] & -> & Hin). apply list_elem_of_filter in Hin as [Hs Hin].
    cbn in Hs. subst s'. by apply elem_of_elements in Hin.
  - intros Hin. exists (s, d). split; [done|].
    apply list_elem_of_filter. split; [done|]. by apply elem_of_elements.
Qed.

Lemma login_dates_nil (s : string) (t : gset (string * date)) :
  login_dates s t = [] ↔ ∀ d, (s, d) ∉ t.
Proof.
  split.
  - intros H d Hin. apply elem_of_login_dates in Hin. rewrite H in Hin.
    by apply not_elem_of_nil in Hin.
  - intros H. destruct (login_dates s t) as [|d l] eqn:E; [done|].
    exfalso. apply (H d), elem_of_login_dates. rewrite E. left.
Qed.

(** C4 (as amended). For every student whose set of login dates is empty,
    [updateStreak] writes nothing: both tables are left as they were and
    the call returns at once, with success when the history read was
    answered. *)
Theorem updateStreak_empty_history_writes_nothing :
  ∀ (s : string) (w : World),
    login_dates s (login_history (db w)) = [] →
    db (snd (updateStreak s w)) = db w
    ∧ (answers 1 w → fst (updateStreak s w) = {| result_error := None |}).
Proof.
  intros s w Hnil. rewrite updateStreak_run.
  apply selected_logins_nil in Hnil. rewrite Hnil. unfold answers.
  destruct (outcomes w) as [|[e|] os]; cbn; done.
Qed.

Lemma updateStreak_empty_history_writes_nothing_witness :
  db (snd (updateStreak student1 fresh_world)) = db fresh_world
  ∧ (answers 1 fresh_world →
     fst (updateStreak student1 fresh_world) = {| result_error := None |}).
Proof.
  apply (updateStreak_empty_history_writes_nothing student1 fresh_world).
  vm_compute. reflexivity.
Defined.

(** The claim as the specification has it fails on the empty tables: the
    student has no login dates, and after [updateStreak] there is no
    summary row, so no all-zero summary was written. *)
Lemma updateStreak_empty_history_no_zero_summary :
  login_dates student1 (login_history (db fresh_world)) = []
  ∧ fst (updateStreak student1 fresh_world) = {| result_error := None |}
  ∧ streak_tracking (db (snd (updateStreak student1 fresh_world))) !! student1 = None
  ∧ streak_tracking (db (snd (updateStreak student1 fresh_world))) !! student1
      ≠ Some zeroCols.
Proof. vm_compute. repeat split; discriminate. Qed.

(** ** Idempotence of [recordLogin] *)

Lemma login_dates_after_upsert (s : string) (t : date) (lh : gset (string * date)) :
  login_dates s ({[ (s, t) ]} ∪ lh) ≠ [].
Proof.
  intros H. apply (proj1 (login_dates_nil _ _) H t). set_solver.
Qed.

(** A [recordLogin] whose three store calls are answered. *)
Lemma recordLogin_answered s w :
  answers 3 w →
  let lh := {[ (s, now w) ]} ∪ login_history (db w) in
  recordLogin s w =
    ({| result_error := None |},
     {| db := {| login_history := lh;
                 streak_tracking :=
                   <[s := cols_of (streakPayload (zone w) s (selected_logins s lh) (now w))]>
                     (streak_tracking (db w)) |};
        outcomes := drop 3 (outcomes w);
        now := now w; zone := zone w |}).
Proof.
  intros Hans lh. rewrite recordLogin_run.
  assert (Hlen : length (selected_logins s lh) ≠ 0%nat).
  { intros H0. apply (login_dates_after_upsert s (now w) (login_history (db w))).
    apply selected_logins_nil. by apply length_zero_iff_nil. }
  unfold answers in Hans.
  destruct (outcomes w) as [|[e|] [|[e'|] [|[e''|] os]]]; try discriminate;
    rewrite updateStreak_run; cbn; fold lh;
    rewrite bool_decide_eq_false_2 by done; done.
Qed.

(** C6. [recordLogin] is idempotent per day. After a first call whose
    store calls are answered, a second call on the same day, whatever
    the store then answers, leaves both tables exactly as the first call
    left them (the login row is not duplicated and no counter moves);
    when the store answers, the second call reports success as the first
    did. The summary holds the counters computed from the student's
    distinct login days. *)
Theorem recordLogin_idempotent_per_day :
  ∀ (s : string) (w : World) (os : list (option PostgrestError)),
    answers 3 w →
    let once := snd (recordLogin s w) in
    let again := {| db := db once; outcomes := os; now := now w; zone := zone w |} in
    fst (recordLogin s w) = {| result_error := None |}
    ∧ streak_tracking (db once) !! s =
        Some (cols_of (streakPayload (zone w) s
                (selected_logins s ({[ (s, now w) ]} ∪ login_history (db w))) (now w)))
    ∧ db (snd (recordLogin s again)) = db once
    ∧ (answers 1 again → fst (recordLogin s again) = {| result_error := None |}).
Proof.
  intros s w os Hans once again. subst once again.
  rewrite (recordLogin_answered s w Hans).
  cbn [fst snd db streak_tracking login_history].
  split; [done|]. split; [by rewrite lookup_insert_eq|].
  rewrite recordLogin_run. cbn [outcomes db now login_history streak_tracking].
  assert (Hlh : ({[ (s, now w) ]} ∪ ({[ (s, now w) ]} ∪ login_history (db w)) : gset _)
                = {[ (s, now w) ]} ∪ login_history (db w)).
  { by rewrite (assoc_L (∪)), (idemp_L (∪)). }
  rewrite Hlh. unfold answers. cbn [outcomes].
  destruct os as [|[e|] os]; cbn [fst snd db take forallb].
  - rewrite updateStreak_run. cbn [outcomes db now login_history streak_tracking tail].
    case_bool_decide; cbn; (split; [|done]); [done|].
    by rewrite insert_insert_eq.
  - split; [done|]. intros; discriminate.
  - rewrite updateStreak_run. cbn [outcomes db now login_history streak_tracking tail].
    split; [|done].
    destruct os as [|[e|] os]; cbn; [| done |];
      (case_bool_decide; cbn; [done|]);
      [by rewrite insert_insert_eq|].
    destruct os as [|[e|] os]; cbn; [|done|]; by rewrite insert_insert_eq.
Qed.

Lemma recordLogin_idempotent_per_day_witness :
  fst (recordLogin student1 fresh_world) = {| result_error := None |}
  ∧ streak_tracking (db (snd (recordLogin student1 fresh_world))) !! student1 =
      Some (cols_of (streakPayload UTC student1
              (selected_logins student1
                 ({[ (student1, now fresh_world) ]} ∪ login_history (db fresh_world)))
              (now fresh_world)))
  ∧ db (snd (recordLogin student1
               {| db := db (snd (recordLogin student1 fresh_world));
                  outcomes := []; now := now fresh_world; zone := zone fresh_world |}))
    = db (snd (recordLogin student1 fresh_world))
  ∧ (answers 1 {| db := db (snd (recordLogin student1 fresh_world));
                  outcomes := []; now := now fresh_world; zone := zone fresh_world |} →
     fst (recordLogin student1
            {| db := db (snd (recordLogin student1 fresh_world));
               outcomes := []; now := now fresh_world; zone := zone fresh_world |})
     = {| result_error := None |}).
Proof.
  apply (recordLogin_idempotent_per_day student1 fresh_world []).
  reflexivity.
Defined.

(** ** Milestones *)

(** The [forEach] keeps, in table order, the milestones the streak has
    reached. *)
Lemma pushed_milestones cs (ms : list Z) acc :
  map milestone (fold_left (pushIfReached cs) ms acc)
    = map milestone acc ++ filter (λ m, m ≤ cs) ms.
Proof.
  revert acc. induction ms as [|m ms IH]; intros acc; cbn [fold_left].
  - by rewrite filter_nil, app_nil_r.
  - rewrite IH, filter_cons. unfold pushIfReached.
    case_bool_decide; case_decide; try lia.
    + rewrite map_app. cbn. by rewrite <- app_assoc.
    + done.
Qed.

Lemma pushed_achieved cs (ms : list Z) acc :
  Forall (λ a, achieved a = true ∧ title a = getAchievementTitle (milestone a)) acc →
  Forall (λ a, achieved a = true ∧ title a = getAchievementTitle (milestone a))
    (fold_left (pushIfReached cs) ms acc).
Proof.
  revert acc. induction ms as [|m ms IH]; intros acc Hacc; cbn [fold_left]; [done|].
  apply IH. unfold pushIfReached. case_bool_decide; [|done].
  apply Forall_app. split; [done|]. by repeat constructor.
Qed.

(** C7. For every non-negative current streak, the achieved entries are
    exactly the milestones of [7; 14; 30; 60; 90; 180; 365] that are at
    most the streak (in table order, each marked achieved with its
    title); below 365 the upcoming entry is the least milestone strictly
    above the streak, with [daysRemaining = milestone - currentStreak];
    from 365 on there is none. A streak of 10 gives achieved [7] and
    upcoming 14 with 4 days remaining; a streak of 365 gives all seven
    milestones and no upcoming entry. *)
Theorem achievements_follow_current_streak :
  (∀ (currentStreak longestStreak : Z),
     0 ≤ currentStreak →
     let a := getStreakAchievements currentStreak longestStreak in
     map milestone (current a) = filter (λ m, m ≤ currentStreak) milestones
     ∧ (∀ m, m ∈ map milestone (current a) ↔ m ∈ milestones ∧ m ≤ currentStreak)
     ∧ Forall (λ x, achieved x = true ∧ title x = getAchievementTitle (milestone x))
         (current a)
     ∧ (365 ≤ currentStreak → upcoming a = None)
     ∧ (currentStreak < 365 →
        ∃ u, upcoming a = Some u
             ∧ upcoming_milestone u ∈ milestones
             ∧ currentStreak < upcoming_milestone u
             ∧ (∀ m, m ∈ milestones → currentStreak < m → upcoming_milestone u ≤ m)
             ∧ upcoming_title u = getAchievementTitle (upcoming_milestone u)
             ∧ daysRemaining u = upcoming_milestone u - currentStreak))
  ∧ (∀ longestStreak,
       map milestone (current (getStreakAchievements 10 longestStreak)) = [7]
       ∧ upcoming (getStreakAchievements 10 longestStreak)
         = Some {| upcoming_milestone := 14;
                   upcoming_title := getAchievementTitle 14;
                   daysRemaining := 4 |})
  ∧ (∀ longestStreak,
       map milestone (current (getStreakAchievements 365 longestStreak))
         = [7; 14; 30; 60; 90; 180; 365]
       ∧ upcoming (getStreakAchievements 365 longestStreak) = None).
Proof.
  split; [|split; intros ls; split; reflexivity].
  intros cs ls Hcs a. subst a. unfold getStreakAchievements. cbn [current upcoming].
  assert (Hcur : map milestone (fold_left (pushIfReached cs) milestones [])
                 = filter (λ m, m ≤ cs) milestones) by apply pushed_milestones.
  split; [exact Hcur|]. split.
  { intros m. rewrite Hcur, list_elem_of_filter. tauto. }
  split; [by apply pushed_achieved|].
  unfold milestones. cbn [Js.Array_find]. split.
  - intros Hge. decide_by_lia. done.
  - intros Hlt.
    assert (Hcases : cs < 7 ∨ 7 ≤ cs < 14 ∨ 14 ≤ cs < 30 ∨ 30 ≤ cs < 60
                     ∨ 60 ≤ cs < 90 ∨ 90 ≤ cs < 180 ∨ 180 ≤ cs < 365) by lia.
    destruct Hcases as [Hr|[Hr|[Hr|[Hr|[Hr|[Hr|Hr]]]]]];
      decide_by_lia; cbn [Js.truthy Z.eqb negb];
      (eexists; split; [reflexivity|]; cbn [upcoming_milestone upcoming_title daysRemaining];
       split; [rewrite !elem_of_cons; lia|]; split; [lia|]; split; [|done];
       intros m Hm Hlt'; repeat (apply elem_of_cons in Hm as [->|Hm]; [lia|]);
       by apply not_elem_of_nil in Hm).
Qed.

Lemma achievements_follow_current_streak_witness :
  map milestone (current (getStreakAchievements 40 0)) = filter (λ m, m ≤ 40) milestones
  ∧ upcoming (getStreakAchievements 400 0) = None.
Proof.
  split.
  - apply (proj1 achievements_follow_current_streak 40 0). lia.
  - apply (proj1 achievements_follow_current_streak 400 0); lia.
Defined.

(** C10. The achievements depend on the current streak only: whatever is
    passed as [longestStreak], the achieved list and the upcoming entry
    are the same. *)
Theorem achievements_ignore_longest_streak :
  ∀ (currentStreak ls1 ls2 : Z),
    getStreakAchievements currentStreak ls1 = getStreakAchievements currentStreak ls2.
Proof. intros currentStreak ls1 ls2. reflexivity. Qed.

(** ** Streak maintenance *)

Lemma needsStreakMaintenance_answered s w :
  answers 2 w →
  fst (needsStreakMaintenance s w) =
    {| needsMaintenance :=
         bool_decide ((s, now w - 1) ∈ login_history (db w))
         && negb (bool_decide ((s, now w) ∈ login_history (db w)));
       needsMaintenance_error := None |}.
Proof.
  unfold answers. destruct w as [d os t z]. run_store. unfold subDays.
  destruct os as [|[e|] [|[e'|] os]]; try discriminate; intros _; cbn;
    repeat (case_bool_decide; cbn); done.
Qed.

(** C8. [needsStreakMaintenance] never writes: both tables are the same
    after the call. When the store answers its two reads, it returns
    true exactly when the login table has a row for the student on
    [today - 1] and none on [today]; and once [recordLogin] has put
    today's row in, it returns false. *)
Theorem needsStreakMaintenance_yesterday_without_today :
  (∀ (s : string) (w : World),
     db (snd (needsStreakMaintenance s w)) = db w)
  ∧ (∀ (s : string) (w : World),
       answers 2 w →
       needsMaintenance_error (fst (needsStreakMaintenance s w)) = None
       ∧ (needsMaintenance (fst (needsStreakMaintenance s w)) = true
          ↔ (s, now w - 1) ∈ login_history (db w)
            ∧ (s, now w) ∉ login_history (db w)))
  ∧ (∀ (s : string) (w : World) (os : list (option PostgrestError)),
       answers 1 w →
       let logged := {| db := db (snd (recordLogin s w)); outcomes := os; now := now w; zone := zone w |} in
       answers 2 logged →
       needsMaintenance (fst (needsStreakMaintenance s logged)) = false).
Proof.
  split; [|split].
  - apply needsStreakMaintenance_db.
  - intros s w Hans. rewrite (needsStreakMaintenance_answered s w Hans).
    cbn [needsMaintenance needsMaintenance_error]. split; [done|].
    rewrite andb_true_iff, negb_true_iff, bool_decide_eq_true, bool_decide_eq_false.
    done.
  - intros s w os Hans logged Hlogged.
    rewrite (needsStreakMaintenance_answered s logged Hlogged).
    cbn [needsMaintenance]. apply andb_false_iff. right.
    apply negb_false_iff, bool_decide_eq_true.
    subst logged. cbn [db now]. rewrite recordLogin_run.
    unfold answers in Hans.
    destruct (outcomes w) as [|[e|] os']; try discriminate;
      cbn [snd]; rewrite updateStreak_run; cbn [outcomes db now login_history tail];
      repeat (case_match; cbn [snd db login_history]); set_solver.
Qed.

Lemma needsStreakMaintenance_yesterday_without_today_witness :
  needsMaintenance (fst (needsStreakMaintenance student1 yesterday_only)) = true
  ∧ needsMaintenance
      (fst (needsStreakMaintenance student1
              {| db := db (snd (recordLogin student1 yesterday_only));
                 outcomes := []; now := now yesterday_only; zone := zone yesterday_only |})) = false.
Proof.
  split.
  - apply (proj1 (proj2 needsStreakMaintenance_yesterday_without_today)
             student1 yesterday_only); [reflexivity|].
    vm_compute. split; [reflexivity|]. intros H. discriminate H.
  - apply (proj2 (proj2 needsStreakMaintenance_yesterday_without_today)
             student1 yesterday_only []); reflexivity.
Defined.

(** ** Reading the summary of a student without logins *)

Lemma updateStreak_login_history s w :
  login_history (db (snd (updateStreak s w))) = login_history (db w).
Proof.
  rewrite updateStreak_run.
  destruct (outcomes w) as [|[e|] [|[e'|] os]]; cbn; repeat (case_bool_decide; cbn); done.
Qed.

Lemma getStreakData_login_history s w :
  login_history (db (snd (getStreakData s w))) = login_history (db w).
Proof.
  destruct w as [d os t z]. run_store.
  destruct os as [|[e|] os]; cbn.
  - destruct (streak_tracking d !! s) eqn:E; cbn; [done|].
    rewrite not_found_passes; cbn. by rewrite E.
  - case_bool_decide; cbn; [done|].
    destruct os as [|[e'|] os]; cbn; try done;
      by destruct (streak_tracking d !! s).
  - destruct (streak_tracking d !! s) eqn:E; cbn; [done|].
    rewrite not_found_passes; cbn.
    destruct os as [|[e'|] os]; cbn; rewrite ?E; done.
Qed.

Lemma signUpStudent_login_history s w :
  login_history (db (snd (signUpStudent_initStreak s w))) = login_history (db w).
Proof.
  destruct w as [d os t z]. run_store.
  destruct os as [|[e|] os]; cbn; try done;
    by destruct (streak_tracking d !! s).
Qed.

Lemma recordLogin_effect s w :
  db (snd (recordLogin s w)) = db w
  ∨ (login_history (db (snd (recordLogin s w)))
       = {[ (s, now w) ]} ∪ login_history (db w)
     ∧ ∀ (k : string) c,
         streak_tracking (db (snd (recordLogin s w))) !! k = Some c →
         streak_tracking (db w) !! k = Some c ∨ k = s).
Proof.
  rewrite recordLogin_run.
  destruct (outcomes w) as [|[e|] os]; cbn [snd db]; [right|by left|right];
    (split; [by rewrite updateStreak_login_history|]);
    intros k c Hk;
    (apply updateStreak_writes in Hk as [Hk|[-> _]]; [by left|by right]).
Qed.

(** In every reachable state a student without login rows has no summary
    row, or the all-zero row. *)
Lemma reachable_zero_until_login w :
  reachable w →
  ∀ s, login_dates s (login_history (db w)) = [] →
       streak_tracking (db w) !! s = None
       ∨ streak_tracking (db w) !! s = Some zeroCols.
Proof.
  induction 1 as [os t z|c w Hw IH|w os t z Hw IH]; intros s Hnil.
  - left. apply lookup_empty.
  - destruct (streak_tracking (db (after c w)) !! s) as [c'|] eqn:E; [right|by left].
    assert (Hold : login_dates s (login_history (db w)) = [] →
                   streak_tracking (db w) !! s = Some c' → Some c' = Some zeroCols).
    { intros Hn Hc. destruct (IH s Hn) as [H0|H0]; congruence. }
    destruct c as [k|k|k|k|k]; cbn [after] in *.
    + destruct (recordLogin_effect k w) as [Hsame|[Hlh Hst]].
      * rewrite Hsame in *. by apply Hold.
      * rewrite Hlh in Hnil. rewrite login_dates_nil in Hnil.
        destruct (Hst s c' E) as [Hc| ->].
        -- apply Hold; [|done]. apply login_dates_nil. intros d Hd.
           apply (Hnil d), elem_of_union. by right.
        -- exfalso. apply (Hnil (now w)), elem_of_union. left.
           by apply elem_of_singleton.
    + rewrite updateStreak_login_history in Hnil.
      apply updateStreak_writes in E as [E|(-> & logins & Hne & Hsel & _)].
      * by apply Hold.
      * exfalso. apply Hne. rewrite Hsel. by apply selected_logins_nil.
    + rewrite getStreakData_login_history in Hnil.
      apply getStreakData_writes in E as [E|[_ ->]]; [by apply Hold|done].
    + rewrite needsStreakMaintenance_db in *. by apply Hold.
    + rewrite signUpStudent_login_history in Hnil.
      apply signUpStudent_writes in E as [E|[_ ->]]; [by apply Hold|done].
  - cbn [db] in *. by apply IH.
Qed.

(** C9. In every reachable state, for every student without login rows,
    when the store answers the summary read and, if it comes to it, the
    first-read insert, [getStreakData] returns a summary whose counters
    are all zero and whose [last_login_date] is absent, and no error:
    the not-found answer of the read is not an error, the all-zero row
    is created on this first read, and after the call it is the
    student's row. *)
Theorem getStreakData_zero_for_student_without_logins :
  ∀ (s : string) (w : World),
    reachable w →
    login_dates s (login_history (db w)) = [] →
    answers 2 w →
    ∃ d, fst (getStreakData s w) = {| streakData := Some d; streakData_error := None |}
         ∧ current_streak d = 0
         ∧ longest_streak d = 0
         ∧ total_login_days d = 0
         ∧ last_login_date d = None
         ∧ streak_tracking (db (snd (getStreakData s w))) !! s = Some zeroCols.
Proof.
  intros s w Hreach Hnil Hans.
  pose proof (reachable_zero_until_login w Hreach s Hnil) as Hrow.
  unfold answers in Hans. destruct w as [d os t z]. cbn [db outcomes] in *.
  run_store.
  destruct os as [|[e|] [|[e'|] os]]; try discriminate;
    destruct Hrow as [Hrow|Hrow]; cbn; rewrite Hrow; cbn;
    rewrite ?not_found_passes; cbn; rewrite ?Hrow; cbn;
    eexists; (split; [reflexivity|]); cbn; rewrite ?lookup_insert_eq; done.
Qed.

Lemma getStreakData_zero_for_student_without_logins_witness :
  ∃ d, fst (getStreakData student1 fresh_world)
         = {| streakData := Some d; streakData_error := None |}
       ∧ current_streak d = 0
       ∧ longest_streak d = 0
       ∧ total_login_days d = 0
       ∧ last_login_date d = None
       ∧ streak_tracking (db (snd (getStreakData student1 fresh_world))) !! student1
         = Some zeroCols.
Proof.
  apply (getStreakData_zero_for_student_without_logins student1 fresh_world).
  - apply reachable_empty.
  - vm_compute. reflexivity.
  - reflexivity.
Defined.

(** * Further properties of the code *)

(** ** The streak arithmetic, read as statements about calendar days *)

Lemma leading_pairs_le_scan sorted run best :
  1 ≤ run → run ≤ best →
  run + Spec.leading_pairs sorted ≤ Spec.scan run best sorted.
Proof.
  revert run best. induction sorted as [|d1 sorted IH]; intros run best H1 Hle;
    [simpl; lia|].
  destruct sorted as [|d2 rest]; [simpl; lia|].
  rewrite leading_pairs_step, scan_step. case_bool_decide.
  - specialize (IH (run + 1) (Z.max best (run + 1))). lia.
  - pose proof (scan_bounds (d2 :: rest) 1 best) as [Hb _]; lia.
Qed.

Lemma currentStreak_le_scanMaximum sorted today :
  Spec.currentStreak sorted today ≤ Spec.scanMaximum sorted.
Proof.
  unfold Spec.currentStreak, Spec.scanMaximum.
  pose proof (leading_pairs_le_scan sorted 1 1) as Hle.
  pose proof (scan_bounds sorted 1 1) as [Hb _]; [lia|].
  destruct sorted as [|d rest]; [lia|]. case_bool_decide; lia.
Qed.

(** X1. The value of [longestStreak] does not depend on the clock:
    [Math.max(longestStreak, currentStreak)] on line 96 never raises the
    result of the second loop, because the current streak is never above
    it. *)
Theorem longest_streak_ignores_today :
  ∀ (tz : TimeZone) (logins : list LoginRow) (today : date),
    computeCurrentStreak tz logins today
      ≤ longestStreak_loop tz (sortDates logins) (length (sortDates logins)) 1 1 1
    ∧ computeLongestStreak tz logins today
      = longestStreak_loop tz (sortDates logins) (length (sortDates logins)) 1 1 1.
Proof.
  intros tz logins today.
  pose proof (currentStreak_by_le_scan_by (daysDiff tz) (sortDates logins) today) as Hle.
  unfold computeLongestStreak. rewrite computeCurrentStreak_by.
  rewrite longestStreak_loop_by by lia.
  change (drop (1 - 1) (sortDates logins)) with (sortDates logins).
  lia.
Qed.

(** The days of one student come out of the table without repetition. *)
Lemma login_dates_NoDup (s : string) (t : gset (string * date)) :
  NoDup (login_dates s t).
Proof.
  unfold login_dates. apply NoDup_fmap_2_strong.
  - intros [s1 d1] [s2 d2] H1 H2 Heq.
    apply list_elem_of_filter in H1 as [H1 _].
    apply list_elem_of_filter in H2 as [H2 _].
    cbn in *. congruence.
  - apply NoDup_filter, NoDup_elements.
Qed.

Lemma sorted_descending_strict dates sorted :
  NoDup dates → Spec.sorted_descending dates sorted → strictly_descending sorted.
Proof.
  intros Hnd [Hs Hp]. rewrite <- Hp in Hnd. clear Hp.
  unfold strictly_descending.
  induction Hs as [|x l Hs IH Hall]; [constructor|].
  apply NoDup_cons in Hnd as [Hx Hnd]. constructor; [by apply IH|].
  apply Forall_forall. intros y Hy.
  assert (y ≤ x) by (eapply Forall_forall in Hall; [exact Hall|done]).
  assert (y ≠ x) by (intros ->; done). lia.
Qed.

Lemma strictly_descending_inv d l :
  strictly_descending (d :: l) →
  strictly_descending l ∧ ∀ y, y ∈ l → y < d.
Proof.
  intros H. apply StronglySorted_inv in H as [Hl Hall].
  split; [done|]. intros y Hy. eapply Forall_forall in Hall; [exact Hall|done].
Qed.

(** The leading pairs of a strictly descending list count the days that
    follow its head without a gap. *)
Lemma leading_pairs_consecutive rest : ∀ d0,
  strictly_descending (d0 :: rest) →
  consecutive_days (d0 :: rest) d0 (1 + Spec.leading_pairs (d0 :: rest))
  ∧ d0 - (1 + Spec.leading_pairs (d0 :: rest)) ∉ d0 :: rest.
Proof.
  induction rest as [|d1 rest IH]; intros d0 Hsd.
  - cbn [Spec.leading_pairs]. split.
    + intros i Hi. replace (d0 - i) with d0 by lia. left.
    + rewrite list_elem_of_singleton. lia.
  - apply strictly_descending_inv in Hsd as [Hsd Hlt].
    destruct (IH d1 Hsd) as [Hcons Hout].
    pose proof (leading_pairs_bounds (d1 :: rest)) as [Hk _].
    pose proof (strictly_descending_inv _ _ Hsd) as [_ Hlt1].
    rewrite leading_pairs_step. case_bool_decide as Hd.
    + split.
      * intros i Hi. destruct (decide (i = 0)) as [->|Hi0].
        -- replace (d0 - 0) with d0 by lia. left.
        -- right. replace (d0 - i) with (d1 - (i - 1)) by lia.
           apply Hcons. lia.
      * replace (d0 - (1 + (1 + Spec.leading_pairs (d1 :: rest))))
          with (d1 - (1 + Spec.leading_pairs (d1 :: rest))) by lia.
        intros Hin. apply elem_of_cons in Hin as [Heq|Hin]; [lia|done].
    + split.
      * intros i Hi. replace (d0 - i) with d0 by lia. left.
      * intros Hin. replace (d0 - (1 + 0)) with (d0 - 1) in Hin by lia.
        apply elem_of_cons in Hin as [Heq|Hin]; [lia|].
        assert (d1 < d0) by (apply Hlt; left).
        apply elem_of_cons in Hin as [Heq|Hin]; [lia|].
        specialize (Hlt1 _ Hin). lia.
Qed.

(** What the scan has seen: [run] is the length of the run that ends at
    the head of the list, [best] the longest run so far. Every run of
    consecutive days in the list is accounted for in the result. *)
Lemma scan_upper rest : ∀ d1 run best,
  strictly_descending (d1 :: rest) → 1 ≤ run → run ≤ best →
  ∀ d n, consecutive_days (d1 :: rest) d n →
         (if decide (d = d1) then n + run - 1 else n) ≤ Spec.scan run best (d1 :: rest).
Proof.
  induction rest as [|d2 rest IH]; intros d1 run best Hsd Hrun Hle d n Hblock.
  - cbn [Spec.scan].
    assert (n ≤ 1).
    { destruct (decide (n ≤ 1)); [done|]. exfalso.
      assert (Hin : d - 0 ∈ [d1]) by (apply Hblock; lia).
      assert (Hin' : d - 1 ∈ [d1]) by (apply Hblock; lia).
      rewrite list_elem_of_singleton in Hin, Hin'. lia. }
    case_decide; [lia|].
    destruct (decide (n ≤ 0)); [lia|]. exfalso.
    assert (Hin : d - 0 ∈ [d1]) by (apply Hblock; lia).
    rewrite list_elem_of_singleton in Hin. lia.
  - apply strictly_descending_inv in Hsd as [Hsd Hlt].
    assert (Hd21 : d2 < d1) by (apply Hlt; left).
    rewrite scan_step.
    (* a run that does not start at [d1] lies in the tail *)
    assert (Htail : d ≠ d1 → 1 ≤ n → consecutive_days (d2 :: rest) d n).
    { intros Hne Hn i Hi.
      assert (Hd : d - 0 ∈ d1 :: d2 :: rest) by (apply Hblock; lia).
      replace (d - 0) with d in Hd by lia.
      apply elem_of_cons in Hd as [Hd|Hd]; [done|].
      specialize (Hlt _ Hd).
      specialize (Hblock i Hi). apply elem_of_cons in Hblock as [Hb|Hb]; [lia|done]. }
    (* a run that starts at [d1] and goes on continues in the tail *)
    assert (Hhead : d = d1 → 2 ≤ n → d1 - d2 = 1 ∧ consecutive_days (d2 :: rest) d2 (n - 1)).
    { intros -> Hn.
      assert (Hd : d1 - 1 ∈ d1 :: d2 :: rest) by (apply Hblock; lia).
      apply elem_of_cons in Hd as [Hd|Hd]; [lia|].
      assert (d1 - 1 ≤ d2).
      { apply elem_of_cons in Hd as [Hd|Hd]; [lia|].
        apply strictly_descending_inv in Hsd as [_ Hlt2]. specialize (Hlt2 _ Hd). lia. }
      split; [lia|]. intros i Hi.
      specialize (Hblock (i + 1) ltac:(lia)).
      replace (d1 - (i + 1)) with (d2 - i) in Hblock by lia.
      apply elem_of_cons in Hblock as [Hb|Hb]; [lia|done]. }
    case_bool_decide as Hdiff.
    + pose proof (scan_bounds (d2 :: rest) (run + 1) (Z.max best (run + 1)) ltac:(lia)) as [Hb _].
      case_decide as Hd.
      * destruct (decide (n ≤ 1)); [lia|].
        destruct (Hhead Hd ltac:(lia)) as [_ Hblock'].
        specialize (IH d2 (run + 1) (Z.max best (run + 1)) Hsd ltac:(lia) ltac:(lia)
                      d2 (n - 1) Hblock').
        rewrite decide_True in IH by done. lia.
      * destruct (decide (n ≤ 0)); [lia|].
        specialize (IH d2 (run + 1) (Z.max best (run + 1)) Hsd ltac:(lia) ltac:(lia)
                      d n (Htail Hd ltac:(lia))).
        case_decide; lia.
    + pose proof (scan_bounds (d2 :: rest) 1 best ltac:(lia)) as [Hb _].
      case_decide as Hd.
      * destruct (decide (n ≤ 1)); [lia|].
        destruct (Hhead Hd ltac:(lia)) as [Hcontra _]. lia.
      * destruct (decide (n ≤ 0)); [lia|].
        specialize (IH d2 1 best Hsd ltac:(lia) ltac:(lia) d n (Htail Hd ltac:(lia))).
        case_decide; lia.
Qed.

(** The result of the scan is [best], or the length of a run of
    consecutive days of the list (lengthened by what [run] already
    counts when it ends at the head). *)
Lemma scan_attained rest : ∀ d1 run best,
  1 ≤ run →
  Spec.scan run best (d1 :: rest) = best
  ∨ ∃ d n, 1 ≤ n ∧ consecutive_days (d1 :: rest) d n
           ∧ (Spec.scan run best (d1 :: rest) = n
              ∨ (d = d1 ∧ Spec.scan run best (d1 :: rest) = n + run - 1)).
Proof.
  induction rest as [|d2 rest IH]; intros d1 run best Hrun; [by left|].
  rewrite scan_step. case_bool_decide as Hdiff.
  - destruct (IH d2 (run + 1) (Z.max best (run + 1)) ltac:(lia))
      as [Heq|(d & n & Hn & Hblock & Hres)].
    + rewrite Heq. destruct (decide (best ≤ run + 1)).
      * right. exists d1, 2. split; [lia|]. split.
        -- intros i Hi. destruct (decide (i = 0)) as [->|].
           ++ replace (d1 - 0) with d1 by lia. left.
           ++ replace (d1 - i) with d2 by lia. right. left.
        -- right. split; [done|lia].
      * left. lia.
    + right. destruct Hres as [Hres|[-> Hres]].
      * exists d, n. split; [done|]. split; [|by left].
        intros i Hi. right. by apply Hblock.
      * exists d1, (n + 1). split; [lia|]. split; [|right; split; [done|lia]].
        intros i Hi. destruct (decide (i = 0)) as [->|].
        -- replace (d1 - 0) with d1 by lia. left.
        -- right. replace (d1 - i) with (d2 - (i - 1)) by lia. apply Hblock. lia.
  - destruct (IH d2 1 best ltac:(lia)) as [Heq|(d & n & Hn & Hblock & Hres)];
      [by left|].
    right. exists d, n. split; [done|]. split.
    + intros i Hi. right. by apply Hblock.
    + left. destruct Hres as [Hres|[_ Hres]]; lia.
Qed.

(** The scan maximum of a strictly descending list is the length of its
    longest run of consecutive days. *)
Lemma scanMaximum_longest_run sorted :
  sorted ≠ [] → strictly_descending sorted →
  1 ≤ Spec.scanMaximum sorted
  ∧ (∃ d, consecutive_days sorted d (Spec.scanMaximum sorted))
  ∧ (∀ d n, consecutive_days sorted d n → n ≤ Spec.scanMaximum sorted).
Proof.
  intros Hne Hsd. destruct sorted as [|d1 rest]; [done|].
  unfold Spec.scanMaximum.
  pose proof (scan_bounds (d1 :: rest) 1 1 ltac:(lia)) as [Hb _].
  split; [done|]. split.
  - destruct (scan_attained rest d1 1 1 ltac:(lia)) as [Heq|(d & n & Hn & Hblock & Hres)].
    + exists d1. rewrite Heq. intros i Hi. replace (d1 - i) with d1 by lia. left.
    + exists d. replace (Spec.scan 1 1 (d1 :: rest)) with n by (destruct Hres as [?|[_ ?]]; lia).
      done.
  - intros d n Hblock.
    pose proof (scan_upper rest d1 1 1 Hsd ltac:(lia) ltac:(lia) d n Hblock) as H.
    case_decide; lia.
Qed.

(** The dates [updateStreak] works on: the student's days, newest first,
    each once. *)
Lemma history_sorted (s : string) (lh : gset (string * date)) :
  strictly_descending (sortDates (selected_logins s lh))
  ∧ (∀ d, d ∈ sortDates (selected_logins s lh) ↔ (s, d) ∈ lh)
  ∧ length (sortDates (selected_logins s lh)) = length (login_dates s lh).
Proof.
  pose proof (sortDates_sorted (selected_logins s lh)) as [Hs Hp].
  rewrite selected_logins_dates in Hp.
  split; [|split].
  - apply (sorted_descending_strict (login_dates s lh)); [apply login_dates_NoDup|done].
  - intros d. by rewrite Hp, elem_of_login_dates.
  - by rewrite Hp.
Qed.

Lemma history_head (s : string) (lh : gset (string * date)) (m : date) :
  (s, m) ∈ lh → (∀ d, (s, d) ∈ lh → d ≤ m) →
  ∃ rest, sortDates (selected_logins s lh) = m :: rest.
Proof.
  intros Hm Hmax. destruct (history_sorted s lh) as (Hsd & Hin & _).
  destruct (sortDates (selected_logins s lh)) as [|d0 rest] eqn:E.
  - apply Hin in Hm. by apply not_elem_of_nil in Hm.
  - exists rest. f_equal.
    assert (d0 ≤ m) by (apply Hmax, Hin; left).
    apply Hin in Hm. apply elem_of_cons in Hm as [->|Hm]; [done|].
    apply strictly_descending_inv in Hsd as [_ Hlt]. specialize (Hlt _ Hm). lia.
Qed.

(** X2. What the current streak counts where the clocks do not change.
    When the store answers, the zone has the same UTC offset on today and
    on each of the student's login days, and [m] is the student's newest
    login day: if today is at most one day after [m], the current streak
    [updateStreak] writes is the number [k >= 1] such that the [k] days
    [m, m-1, ..., m-k+1] all have a login row and day [m-k] has none; if
    today is more than one day after [m], it is 0. *)
Theorem current_streak_counts_days_back_from_newest :
  ∀ (s : string) (w : World) (m : date),
    answers 2 w →
    steady (zone w) (now w :: login_dates s (login_history (db w))) →
    (s, m) ∈ login_history (db w) →
    (∀ d, (s, d) ∈ login_history (db w) → d ≤ m) →
    ∃ c, streak_tracking (db (snd (updateStreak s w))) !! s = Some c
         ∧ (now w - m ≤ 1 →
            1 ≤ col_current_streak c
            ∧ (∀ i, 0 ≤ i < col_current_streak c → (s, m - i) ∈ login_history (db w))
            ∧ (s, m - col_current_streak c) ∉ login_history (db w))
         ∧ (1 < now w - m → col_current_streak c = 0).
Proof.
  intros s w m Hans Hsteady Hm Hmax.
  assert (Hne : login_dates s (login_history (db w)) ≠ []).
  { intros Hnil. by apply (proj1 (login_dates_nil _ _) Hnil m). }
  destruct (updateStreak_row s w Hans Hne) as [_ Hrow].
  eexists. split; [exact Hrow|]. cbn [cols_of streakPayload col_current_streak current_streak].
  rewrite computeCurrentStreak_spec by (by apply steady_selected).
  destruct (history_sorted s (login_history (db w))) as (Hsd & Hin & _).
  destruct (history_head s _ m Hm Hmax) as [rest Hsorted].
  rewrite Hsorted in *. unfold Spec.currentStreak.
  destruct (leading_pairs_consecutive rest m Hsd) as [Hcons Hout].
  pose proof (leading_pairs_bounds (m :: rest)) as [Hk _].
  split.
  - intros Hgap. rewrite bool_decide_eq_true_2 by done.
    split; [lia|]. split.
    + intros i Hi. apply Hin. by apply Hcons.
    + intros Hc. apply Hout. by apply Hin.
  - intros Hgap. by rewrite bool_decide_eq_false_2 by lia.
Qed.

Lemma current_streak_counts_days_back_from_newest_witness :
  ∃ c, streak_tracking (db (snd (updateStreak student1 three_days))) !! student1 = Some c
       ∧ (now three_days - 9 ≤ 1 →
          1 ≤ col_current_streak c
          ∧ (∀ i, 0 ≤ i < col_current_streak c →
                  (student1, 9 - i) ∈ login_history (db three_days))
          ∧ (student1, 9 - col_current_streak c) ∉ login_history (db three_days))
       ∧ (1 < now three_days - 9 → col_current_streak c = 0).
Proof.
  apply (current_streak_counts_days_back_from_newest student1 three_days 9).
  - reflexivity.
  - exists 0. intros d _. reflexivity.
  - vm_compute. reflexivity.
  - intros d Hd. apply elem_of_login_dates in Hd.
    let days := eval vm_compute in
          (login_dates student1 (login_history (db three_days))) in
    change (login_dates student1 (login_history (db three_days))) with days in Hd.
    repeat (apply elem_of_cons in Hd as [->|Hd]; [lia|]).
    by apply not_elem_of_nil in Hd.
Defined.

(** X3. What the longest streak counts where the clocks do not change.
    When the store answers, the zone has the same UTC offset on today and
    on each of the student's login days, and the student has at least
    one login row, the longest streak [updateStreak] writes is the length
    of the longest run of consecutive calendar days that all have a
    login row: some run of that length exists, and no run is longer. *)
Theorem longest_streak_is_longest_run_of_days :
  ∀ (s : string) (w : World) (d0 : date),
    answers 2 w →
    steady (zone w) (now w :: login_dates s (login_history (db w))) →
    (s, d0) ∈ login_history (db w) →
    ∃ c, streak_tracking (db (snd (updateStreak s w))) !! s = Some c
         ∧ 1 ≤ col_longest_streak c
         ∧ (∃ d, ∀ i, 0 ≤ i < col_longest_streak c →
                      (s, d - i) ∈ login_history (db w))
         ∧ (∀ d n, (∀ i, 0 ≤ i < n → (s, d - i) ∈ login_history (db w)) →
                   n ≤ col_longest_streak c).
Proof.
  intros s w d0 Hans Hsteady Hd0.
  assert (Hne : login_dates s (login_history (db w)) ≠ []).
  { intros Hnil. by apply (proj1 (login_dates_nil _ _) Hnil d0). }
  destruct (updateStreak_row s w Hans Hne) as [_ Hrow].
  eexists. split; [exact Hrow|]. cbn [cols_of streakPayload col_longest_streak longest_streak].
  rewrite computeLongestStreak_spec by (by apply steady_selected).
  unfold Spec.longestStreak.
  pose proof (currentStreak_le_scanMaximum
                (sortDates (selected_logins s (login_history (db w)))) (now w)) as Hle.
  rewrite Z.max_l by done.
  destruct (history_sorted s (login_history (db w))) as (Hsd & Hin & _).
  assert (Hne' : sortDates (selected_logins s (login_history (db w))) ≠ []).
  { intros E. apply Hin in Hd0. rewrite E in Hd0. by apply not_elem_of_nil in Hd0. }
  destruct (scanMaximum_longest_run _ Hne' Hsd) as (H1 & [d Hrun] & Hmax).
  split; [done|]. split.
  - exists d. intros i Hi. apply Hin. by apply Hrun.
  - intros d' n Hrun'. apply (Hmax d'). intros i Hi. apply Hin. by apply Hrun'.
Qed.

Lemma longest_streak_is_longest_run_of_days_witness :
  ∃ c, streak_tracking (db (snd (updateStreak student1 three_days))) !! student1 = Some c
       ∧ 1 ≤ col_longest_streak c
       ∧ (∃ d, ∀ i, 0 ≤ i < col_longest_streak c →
                    (student1, d - i) ∈ login_history (db three_days))
       ∧ (∀ d n, (∀ i, 0 ≤ i < n → (student1, d - i) ∈ login_history (db three_days)) →
                 n ≤ col_longest_streak c).
Proof.
  apply (longest_streak_is_longest_run_of_days student1 three_days 9).
  - reflexivity.
  - exists 0. intros d _. reflexivity.
  - vm_compute. reflexivity.
Defined.

(** ** A login on a new day *)

Lemma scan_max_best sorted : ∀ run best x,
  Spec.scan run (Z.max best x) sorted = Z.max (Spec.scan run best sorted) x.
Proof.
  induction sorted as [|d1 sorted IH]; intros run best x; [done|].
  destruct sorted as [|d2 rest]; [done|].
  rewrite !scan_step. case_bool_decide; [|apply IH].
  replace (Z.max (Z.max best x) (run + 1)) with (Z.max (Z.max best (run + 1)) x) by lia.
  apply IH.
Qed.

(** Starting the scan with a longer run only matters through the first
    run of the list. *)
Lemma scan_longer_run sorted : ∀ run best k,
  0 ≤ k →
  Spec.scan (run + k) (Z.max best (run + k)) sorted
    = Z.max (Spec.scan run best sorted) (run + k + Spec.leading_pairs sorted).
Proof.
  induction sorted as [|d1 sorted IH]; intros run best k Hk; [simpl; lia|].
  destruct sorted as [|d2 rest]; [simpl; lia|].
  rewrite !scan_step, leading_pairs_step. case_bool_decide.
  - replace (Z.max (Z.max best (run + k)) (run + k + 1))
      with (Z.max (Z.max best (run + 1)) (run + 1 + k)) by lia.
    replace (run + k + 1) with (run + 1 + k) by lia.
    rewrite IH by done. lia.
  - rewrite scan_max_best. lia.
Qed.

(** Today's day goes in front of the sorted history when every recorded
    day is earlier. *)
Lemma history_with_today (s : string) (lh : gset (string * date)) (t : date) :
  (∀ d, (s, d) ∈ lh → d < t) →
  sortDates (selected_logins s ({[ (s, t) ]} ∪ lh))
    = t :: sortDates (selected_logins s lh).
Proof.
  intros Hbefore.
  destruct (history_sorted s lh) as (Hsd & Hin & _).
  pose proof (sortDates_sorted (selected_logins s lh)) as [Hs Hp].
  rewrite selected_logins_dates in Hp.
  apply selected_logins_sorted. split.
  - constructor; [done|]. apply Forall_forall. intros y Hy.
    apply Hin, Hbefore in Hy. lia.
  - apply NoDup_Permutation.
    + apply NoDup_cons. split.
      * intros Ht. apply Hin, Hbefore in Ht. lia.
      * rewrite Hp. apply login_dates_NoDup.
    + apply login_dates_NoDup.
    + intros x. rewrite elem_of_cons, Hin, elem_of_login_dates, elem_of_union,
        elem_of_singleton. split.
      * intros [->|Hx]; [by left|by right].
      * intros [[= ->]|Hx]; [by left|by right].
Qed.

Lemma login_dates_with_today (s : string) (lh : gset (string * date)) (t : date) :
  (s, t) ∉ lh →
  length (login_dates s ({[ (s, t) ]} ∪ lh)) = S (length (login_dates s lh)).
Proof.
  intros Hnew.
  assert (Hp : login_dates s ({[ (s, t) ]} ∪ lh) ≡ₚ t :: login_dates s lh).
  { apply NoDup_Permutation.
    - apply login_dates_NoDup.
    - apply NoDup_cons. split; [by rewrite elem_of_login_dates|apply login_dates_NoDup].
    - intros x. rewrite elem_of_cons, !elem_of_login_dates, elem_of_union,
        elem_of_singleton. split.
      + intros [[= ->]|Hx]; [by left|by right].
      + intros [->|Hx]; [by left|by right]. }
  by rewrite Hp.
Qed.

Lemma selected_logins_length (s : string) (lh : gset (string * date)) :
  length (selected_logins s lh) = length (login_dates s lh).
Proof.
  rewrite <- (length_map login_date). by rewrite selected_logins_dates.
Qed.

(** X4. The first login of a day where the clocks do not change. When
    the store answers, the zone has the same UTC offset on today and on
    each of the student's login days, and every login row of the student
    is for a day before today, [recordLogin] leaves a summary whose
    current streak is one more than the streak the code
    computes today from the rows before the call (so it goes from [k] to
    [k + 1] after a login yesterday, and from 0 to 1 after a gap or with
    no history), whose total is one more than the number of earlier days,
    whose longest streak is the larger of the earlier longest run and the
    new current streak, and whose last login date is today. *)
Theorem first_login_of_day_extends_streak :
  ∀ (s : string) (w : World),
    answers 3 w →
    steady (zone w) (now w :: login_dates s (login_history (db w))) →
    (∀ d, (s, d) ∈ login_history (db w) → d < now w) →
    let before := selected_logins s (login_history (db w)) in
    ∃ c, streak_tracking (db (snd (recordLogin s w))) !! s = Some c
         ∧ col_current_streak c = computeCurrentStreak (zone w) before (now w) + 1
         ∧ col_longest_streak c
           = Z.max (computeLongestStreak (zone w) before (now w))
                   (col_current_streak c)
         ∧ col_total_login_days c = Z.of_nat (length before) + 1
         ∧ col_last_login_date c = Some (now w).
Proof.
  intros s w Hans Hsteady Hbefore before. subst before.
  rewrite (recordLogin_answered s w Hans). cbn [snd db streak_tracking].
  rewrite lookup_insert_eq. eexists. split; [reflexivity|].
  cbn [cols_of streakPayload col_current_streak col_longest_streak
       col_total_login_days col_last_login_date
       current_streak longest_streak total_login_days last_login_date].
  assert (Hsteady' : steady (zone w)
            (now w :: login_dates s ({[ (s, now w) ]} ∪ login_history (db w)))).
  { revert Hsteady. apply steady_incl. intros d.
    rewrite !elem_of_cons, !elem_of_login_dates, elem_of_union, elem_of_singleton.
    intros [->|[[= ->]|Hd]]; auto. }
  rewrite !computeLongestStreak_spec, !computeCurrentStreak_spec
    by (by apply steady_selected).
  rewrite (history_with_today s _ (now w) Hbefore).
  set (sorted := sortDates (selected_logins s (login_history (db w)))).
  assert (Hhead : ∀ m rest, sorted = m :: rest → m < now w).
  { intros m rest E. apply Hbefore.
    apply (proj1 (proj2 (history_sorted s (login_history (db w))))).
    fold sorted. rewrite E. left. }
  assert (Hcur : Spec.currentStreak (now w :: sorted) (now w)
                 = Spec.currentStreak sorted (now w) + 1).
  { unfold Spec.currentStreak. rewrite bool_decide_eq_true_2 by lia.
    destruct sorted as [|m rest] eqn:E; [done|].
    specialize (Hhead m rest eq_refl).
    rewrite leading_pairs_step.
    destruct (decide (now w - m = 1)) as [H1|H1].
    - rewrite (bool_decide_eq_true_2 _ H1), bool_decide_eq_true_2 by lia. lia.
    - rewrite (bool_decide_eq_false_2 _ H1), bool_decide_eq_false_2 by lia. lia. }
  split; [exact Hcur|]. split; [|split; [|done]].
  - rewrite Hcur. unfold Spec.longestStreak.
    pose proof (currentStreak_le_scanMaximum (now w :: sorted) (now w)) as Hle1.
    pose proof (currentStreak_le_scanMaximum sorted (now w)) as Hle2.
    rewrite Hcur in Hle1. rewrite !Z.max_l by lia.
    unfold Spec.scanMaximum, Spec.currentStreak in *.
    destruct sorted as [|m rest] eqn:E; [simpl; lia|].
    specialize (Hhead m rest eq_refl).
    rewrite scan_step.
    destruct (decide (now w - m = 1)) as [H1|H1].
    + rewrite (bool_decide_eq_true_2 _ H1), bool_decide_eq_true_2 by lia.
      rewrite (scan_longer_run (m :: rest) 1 1 1) by lia. lia.
    + rewrite (bool_decide_eq_false_2 _ H1), bool_decide_eq_false_2 by lia.
      pose proof (scan_bounds (m :: rest) 1 1 ltac:(lia)) as [Hb _]. lia.
  - rewrite !selected_logins_length, login_dates_with_today; [lia|].
    intros Hin. apply Hbefore in Hin. lia.
Qed.

Lemma first_login_of_day_extends_streak_witness :
  ∃ c, streak_tracking (db (snd (recordLogin student1 yesterday_and_before))) !! student1
         = Some c
       ∧ col_current_streak c
         = computeCurrentStreak (zone yesterday_and_before)
             (selected_logins student1 (login_history (db yesterday_and_before)))
             (now yesterday_and_before) + 1
       ∧ col_longest_streak c
         = Z.max (computeLongestStreak (zone yesterday_and_before)
                    (selected_logins student1 (login_history (db yesterday_and_before)))
                    (now yesterday_and_before))
                 (col_current_streak c)
       ∧ col_total_login_days c
         = Z.of_nat (length (selected_logins student1
                               (login_history (db yesterday_and_before)))) + 1
       ∧ col_last_login_date c = Some (now yesterday_and_before).
Proof.
  apply (first_login_of_day_extends_streak student1 yesterday_and_before).
  - reflexivity.
  - exists 0. intros d _. reflexivity.
  - intros d Hd. apply elem_of_login_dates in Hd.
    let days := eval vm_compute in
          (login_dates student1 (login_history (db yesterday_and_before))) in
    change (login_dates student1 (login_history (db yesterday_and_before)))
      with days in Hd.
    change (now yesterday_and_before) with 10.
    repeat (apply elem_of_cons in Hd as [->|Hd]; [lia|]).
    by apply not_elem_of_nil in Hd.
Defined.

(** ** What the calls report and what they leave behind *)

(** X5. [recordLogin] reports an error exactly when the upsert of the
    login row fails, and then it is the error of that upsert and neither
    table has changed. *)
Theorem recordLogin_error_is_upsert_error :
  ∀ (s : string) (w : World) (e : PostgrestError),
    (result_error (fst (recordLogin s w)) = Some e
     ↔ outcomes w !! 0%nat = Some (Some e))
    ∧ (result_error (fst (recordLogin s w)) = Some e →
       db (snd (recordLogin s w)) = db w).
Proof.
  intros s w e. rewrite recordLogin_run.
  destruct (outcomes w) as [|[e'|] os]; cbn; split; try done;
    split; congruence.
Qed.

(** X6. [updateStreak] keeps its word. It never changes the login rows or
    another student's summary; when it returns an error neither table
    has changed; and when it returns success for a student who has login
    rows, the student's summary is the freshly computed one. *)
Theorem updateStreak_success_means_refreshed :
  ∀ (s : string) (w : World),
    login_history (db (snd (updateStreak s w))) = login_history (db w)
    ∧ (∀ k, k ≠ s →
         streak_tracking (db (snd (updateStreak s w))) !! k
           = streak_tracking (db w) !! k)
    ∧ (∀ e, result_error (fst (updateStreak s w)) = Some e →
         db (snd (updateStreak s w)) = db w)
    ∧ (result_error (fst (updateStreak s w)) = None →
       login_dates s (login_history (db w)) ≠ [] →
       streak_tracking (db (snd (updateStreak s w))) !! s
         = Some (cols_of (streakPayload (zone w) s
                            (selected_logins s (login_history (db w))) (now w)))).
Proof.
  intros s w. split; [apply updateStreak_login_history|].
  rewrite updateStreak_run.
  destruct (outcomes w) as [|[e|] os]; cbn [fst snd db result_error].
  - case_bool_decide as Hlen; cbn [fst snd db result_error streak_tracking tail].
    + split; [done|]. split; [done|]. intros _ Hne. exfalso. apply Hne.
      apply selected_logins_nil. by apply length_zero_iff_nil.
    + split; [intros k Hk; by rewrite lookup_insert_ne|].
      split; [done|]. intros _ _. by rewrite lookup_insert_eq.
  - done.
  - case_bool_decide as Hlen; cbn [fst snd db result_error streak_tracking tail].
    + split; [done|]. split; [done|]. intros _ Hne. exfalso. apply Hne.
      apply selected_logins_nil. by apply length_zero_iff_nil.
    + destruct os as [|[e|] os]; cbn [fst snd db result_error streak_tracking].
      * split; [intros k Hk; by rewrite lookup_insert_ne|].
        split; [done|]. intros _ _. by rewrite lookup_insert_eq.
      * done.
      * split; [intros k Hk; by rewrite lookup_insert_ne|].
        split; [done|]. intros _ _. by rewrite lookup_insert_eq.
Qed.

Lemma updateStreak_success_means_refreshed_witness :
  streak_tracking (db (snd (updateStreak student1 three_days))) !! student1
    = Some (cols_of (streakPayload UTC student1
                       (selected_logins student1 (login_history (db three_days)))
                       (now three_days))).
Proof.
  apply (updateStreak_success_means_refreshed student1 three_days).
  - reflexivity.
  - vm_compute. discriminate.
Defined.

Lemma recordLogin_error_is_upsert_error_witness :
  db (snd (recordLogin student1 read_fails)) = db read_fails.
Proof.
  apply (proj2 (recordLogin_error_is_upsert_error student1 read_fails store_down)).
  reflexivity.
Defined.

(** A read of a student who has a row: the row comes back and nothing is
    written. *)
Lemma getStreakData_existing_row s w c :
  answers 1 w →
  streak_tracking (db w) !! s = Some c →
  getStreakData s w =
    ({| streakData := Some (row_of s c); streakData_error := None |},
     {| db := db w; outcomes := tail (outcomes w); now := now w; zone := zone w |}).
Proof.
  unfold answers. intros Hans Hrow. destruct w as [d os t z]. run_store.
  destruct os as [|[e|] os]; try discriminate; cbn; rewrite Hrow; done.
Qed.

(** X7. Reading back what was written. After a [recordLogin] whose store
    calls are answered, an answered [getStreakData] returns, without
    error and without writing, exactly the summary [updateStreak]
    computed: the same counters, today as last login date, and the
    student's id. *)
Theorem getStreakData_reads_back_summary :
  ∀ (s : string) (w : World) (os : list (option PostgrestError)) (t' : date)
    (z' : TimeZone),
    answers 3 w →
    let logged := {| db := db (snd (recordLogin s w)); outcomes := os; now := t'; zone := z' |} in
    answers 1 logged →
    fst (getStreakData s logged)
      = {| streakData :=
             Some (streakPayload (zone w) s
                     (selected_logins s ({[ (s, now w) ]} ∪ login_history (db w)))
                     (now w));
           streakData_error := None |}
    ∧ db (snd (getStreakData s logged)) = db logged.
Proof.
  intros s w os t' z' Hans logged Hlogged.
  assert (Hrow : streak_tracking (db logged) !! s
                 = Some (cols_of (streakPayload (zone w) s
                           (selected_logins s ({[ (s, now w) ]} ∪ login_history (db w)))
                           (now w)))).
  { subst logged. cbn [db]. rewrite (recordLogin_answered s w Hans).
    cbn [snd db streak_tracking]. by rewrite lookup_insert_eq. }
  rewrite (getStreakData_existing_row s logged _ Hlogged Hrow). done.
Qed.

Lemma getStreakData_reads_back_summary_witness :
  fst (getStreakData student1
         {| db := db (snd (recordLogin student1 three_days)); outcomes := []; now := 11; zone := UTC |})
    = {| streakData :=
           Some (streakPayload UTC student1
                   (selected_logins student1
                      ({[ (student1, now three_days) ]} ∪ login_history (db three_days)))
                   (now three_days));
         streakData_error := None |}
  ∧ db (snd (getStreakData student1
               {| db := db (snd (recordLogin student1 three_days));
                  outcomes := []; now := 11; zone := UTC |}))
    = db {| db := db (snd (recordLogin student1 three_days)); outcomes := []; now := 11; zone := UTC |}.
Proof.
  apply (getStreakData_reads_back_summary student1 three_days [] 11 UTC); reflexivity.
Defined.

Lemma getStreakData_keeps_rows s w k c :
  streak_tracking (db w) !! k = Some c →
  streak_tracking (db (snd (getStreakData s w))) !! k = Some c.
Proof.
  intros Hk. destruct w as [d os t z]. cbn [db] in Hk. run_store.
  destruct os as [|[e|] os]; cbn.
  - destruct (streak_tracking d !! s) eqn:E; cbn; [done|].
    rewrite not_found_passes; cbn. rewrite E; cbn.
    rewrite lookup_insert_ne; [done|congruence].
  - case_bool_decide; cbn; [done|].
    destruct os as [|[e'|] os]; cbn; try done;
      (destruct (streak_tracking d !! s) eqn:E; cbn; [done|];
       rewrite lookup_insert_ne; [done|congruence]).
  - destruct (streak_tracking d !! s) eqn:E; cbn; [done|].
    rewrite not_found_passes; cbn.
    destruct os as [|[e'|] os]; cbn; rewrite ?E; cbn; try done;
      (rewrite lookup_insert_ne; [done|congruence]).
Qed.

Lemma getStreakData_result_shape s w :
  (streakData_error (fst (getStreakData s w)) = None
   → is_Some (streakData (fst (getStreakData s w))))
  ∧ (is_Some (streakData_error (fst (getStreakData s w)))
     → streakData (fst (getStreakData s w)) = None).
Proof.
  destruct w as [d os t z]. run_store.
  destruct os as [|[e|] os]; cbn.
  - destruct (streak_tracking d !! s) eqn:E; cbn; [by eauto|].
    rewrite not_found_passes; cbn. rewrite E; cbn. split; [by eauto|by intros [? ?]].
  - case_bool_decide; cbn; [split; [done|by eauto]|].
    destruct os as [|[e'|] os]; cbn; [|split; [done|by eauto]|];
      (destruct (streak_tracking d !! s) eqn:E; cbn;
       (split; [by eauto|]); try done; by intros [? ?]).
  - destruct (streak_tracking d !! s) eqn:E; cbn; [split; [by eauto|by intros [? ?]]|].
    rewrite not_found_passes; cbn.
    destruct os as [|[e'|] os]; cbn; rewrite ?E; cbn;
      (split; [by eauto|]); try done; by intros [? ?].
Qed.

(** X8. The only thing [getStreakData] ever writes is the all-zero row of
    the student it is asked about, and only when that student has no
    row: the login rows are untouched, every existing summary row stays
    as it is, and a row that is there afterwards was there before or is
    that all-zero row. Its result has a summary exactly when it has no
    error. *)
Theorem getStreakData_only_creates_zero_row :
  ∀ (s : string) (w : World),
    login_history (db (snd (getStreakData s w))) = login_history (db w)
    ∧ (∀ k c, streak_tracking (db w) !! k = Some c →
              streak_tracking (db (snd (getStreakData s w))) !! k = Some c)
    ∧ (∀ k c, streak_tracking (db (snd (getStreakData s w))) !! k = Some c →
              streak_tracking (db w) !! k = Some c
              ∨ (k = s ∧ c = zeroCols ∧ streak_tracking (db w) !! s = None))
    ∧ (streakData_error (fst (getStreakData s w)) = None
       ↔ is_Some (streakData (fst (getStreakData s w)))).
Proof.
  intros s w. split; [apply getStreakData_login_history|].
  split; [intros k c; apply getStreakData_keeps_rows|]. split.
  - intros k c Hk.
    destruct (getStreakData_writes s w k c Hk) as [H|[-> ->]]; [by left|].
    destruct (streak_tracking (db w) !! s) as [c0|] eqn:E; [|by right].
    left. pose proof (getStreakData_keeps_rows s w s c0 E) as Hkeep. congruence.
  - destruct (getStreakData_result_shape s w) as [H1 H2]. split; [done|].
    intros Hsome. destruct (streakData_error (fst (getStreakData s w))) eqn:E; [|done].
    rewrite H2 in Hsome by eauto. by destruct Hsome.
Qed.

Lemma getStreakData_only_creates_zero_row_witness :
  streak_tracking (db fresh_world) !! student1 = Some zeroCols
  ∨ (student1 = student1 ∧ zeroCols = zeroCols
     ∧ streak_tracking (db fresh_world) !! student1 = None).
Proof.
  apply (proj1 (proj2 (proj2 (getStreakData_only_creates_zero_row student1 fresh_world)))).
  vm_compute. reflexivity.
Defined.

(** ** The login calendar *)

Lemma login_date_rows (l : list date) : map login_date (Build_LoginRow <$> l) = l.
Proof. induction l as [|x l IH]; [done|]. simpl. by f_equal. Qed.

(** The days the calendar query selects. *)
Lemma getLoginCalendar_run s days w :
  getLoginCalendar s days w =
    match outcomes w with
    | Some e :: os =>
        ({| loginDates := None; loginDates_error := Some e |},
         {| db := db w; outcomes := os; now := now w; zone := zone w |})
    | os =>
        ({| loginDates :=
              Some (merge_sort (λ a b : date, a ≤ b)
                      (filter (λ d, now w - days ≤ d)
                         (login_dates s (login_history (db w)))));
            loginDates_error := None |},
         {| db := db w; outcomes := tail os; now := now w; zone := zone w |})
    end.
Proof.
  destruct w as [d os t z]. unfold getLoginCalendar, login_history_select_since.
  run_store. unfold subDays.
  destruct os as [|[e|] os]; cbn; rewrite ?login_date_rows; done.
Qed.

Lemma getLoginCalendar_answered s days w :
  answers 1 w →
  getLoginCalendar s days w =
    ({| loginDates :=
          Some (merge_sort (λ a b : date, a ≤ b)
                  (filter (λ d, now w - days ≤ d)
                     (login_dates s (login_history (db w)))));
        loginDates_error := None |},
     {| db := db w; outcomes := tail (outcomes w); now := now w; zone := zone w |}).
Proof.
  intros Hans. rewrite getLoginCalendar_run. unfold answers in Hans.
  by destruct (outcomes w) as [|[e|] os].
Qed.

Local Instance oldest_first_trans : Transitive (λ a b : date, a ≤ b).
Proof. intros a b c ? ?. lia. Qed.

Local Instance oldest_first_total : Total (λ a b : date, a ≤ b).
Proof. intros a b. lia. Qed.

Local Instance newest_first_trans : Transitive (λ a b : date, b ≤ a).
Proof. intros a b c ? ?. lia. Qed.

Local Instance newest_first_total : Total (λ a b : date, b ≤ a).
Proof. intros a b. lia. Qed.




(** ** Login consistency *)

Lemma getLoginConsistency_run s w :
  getLoginConsistency s w =
    match outcomes w with
    | Some e :: os =>
        ({| totalLoginDays := 0; consistency_loginDates := None;
            consistency_error := Some e |},
         {| db := db w; outcomes := os; now := now w; zone := zone w |})
    | os =>
        ({| totalLoginDays :=
              Z.of_nat (length (selected_logins s (login_history (db w))));
            consistency_loginDates := Some (selected_logins s (login_history (db w)));
            consistency_error := None |},
         {| db := db w; outcomes := tail os; now := now w; zone := zone w |})
    end.
Proof.
  destruct w as [d os t z]. unfold getLoginConsistency. run_store.
  by destruct os as [|[e|] os].
Qed.

Lemma login_dates_length_size (s : string) (lh : gset (string * date)) :
  length (login_dates s lh) = size (filter (λ r, r.1 = s) lh).
Proof.
  unfold login_dates. rewrite length_fmap. unfold size, set_size. cbn.
  apply Permutation_length. apply NoDup_Permutation.
  - apply NoDup_filter, NoDup_elements.
  - apply NoDup_elements.
  - intros x. rewrite list_elem_of_filter, !elem_of_elements, elem_of_filter. done.
Qed.

(** X10. [getLoginConsistency] never writes. When the store answers, its
    [totalLoginDays] is the number of distinct days the student has a
    login row for, and its rows are those days, newest first; when the
    read fails it returns 0 days, no rows and the error of the read. *)
Theorem getLoginConsistency_counts_distinct_days :
  ∀ (s : string) (w : World),
    db (snd (getLoginConsistency s w)) = db w
    ∧ (answers 1 w →
       ∃ rows, fst (getLoginConsistency s w)
                 = {| totalLoginDays := Z.of_nat (length rows);
                      consistency_loginDates := Some rows;
                      consistency_error := None |}
               ∧ StronglySorted (λ a b, b < a) (map login_date rows)
               ∧ (∀ d, d ∈ map login_date rows ↔ (s, d) ∈ login_history (db w))
               ∧ length rows = size (filter (λ r, r.1 = s) (login_history (db w))))
    ∧ (∀ e, outcomes w !! 0%nat = Some (Some e) →
            fst (getLoginConsistency s w)
              = {| totalLoginDays := 0; consistency_loginDates := None;
                   consistency_error := Some e |}).
Proof.
  intros s w. rewrite getLoginConsistency_run. unfold answers.
  split; [by destruct (outcomes w) as [|[e|] os]|]. split.
  - intros Hans. exists (selected_logins s (login_history (db w))).
    split; [by destruct (outcomes w) as [|[e|] os]|].
    unfold selected_logins at 1 2. rewrite login_date_rows.
    split; [|split].
    + apply (sorted_descending_strict (login_dates s (login_history (db w))));
        [apply login_dates_NoDup|].
      split; [apply (StronglySorted_merge_sort (λ a b : date, b ≤ a))|
              apply merge_sort_Permutation].
    + intros d. by rewrite merge_sort_Permutation, elem_of_login_dates.
    + by rewrite selected_logins_length, login_dates_length_size.
  - intros e He. destruct (outcomes w) as [|[e'|] os]; cbn in *; congruence.
Qed.

Lemma getLoginConsistency_counts_distinct_days_witness :
  ∃ rows, fst (getLoginConsistency student1 three_days)
            = {| totalLoginDays := Z.of_nat (length rows);
                 consistency_loginDates := Some rows;
                 consistency_error := None |}
          ∧ StronglySorted (λ a b, b < a) (map login_date rows)
          ∧ (∀ d, d ∈ map login_date rows ↔ (student1, d) ∈ login_history (db three_days))
          ∧ length rows
            = size (filter (λ r, r.1 = student1) (login_history (db three_days))).
Proof.
  apply (proj1 (proj2 (getLoginConsistency_counts_distinct_days student1 three_days))).
  reflexivity.
Defined.

(** ** Invariants of the tables *)

Lemma call_login_history (call : Call) (w : World) (x : string * date) :
  x ∈ login_history (db (after call w)) ↔
  x ∈ login_history (db w)
  ∨ (∃ s, call = RecordLogin s ∧ x = (s, now w)
          ∧ ∀ e, outcomes w !! 0%nat ≠ Some (Some e)).
Proof.
  destruct call as [s|s|s|s|s]; cbn [after].
  - rewrite recordLogin_run.
    destruct (outcomes w) as [|[e|] os]; cbn [snd db];
      rewrite ?updateStreak_login_history; cbn [db login_history].
    + rewrite elem_of_union, elem_of_singleton. split.
      * intros [->|H]; [right|by left]. exists s. by repeat split.
      * intros [H|(s' & [= <-] & -> & _)]; [by right|by left].
    + split; [by left|]. intros [H|(s' & _ & _ & H)]; [done|].
      by destruct (H e).
    + rewrite elem_of_union, elem_of_singleton. split.
      * intros [->|H]; [right|by left]. exists s. by repeat split.
      * intros [H|(s' & [= <-] & -> & _)]; [by right|by left].
  - rewrite updateStreak_login_history. split; [by left|].
    by intros [H|(s' & [=] & _)].
  - rewrite getStreakData_login_history. split; [by left|].
    by intros [H|(s' & [=] & _)].
  - rewrite needsStreakMaintenance_db. split; [by left|].
    by intros [H|(s' & [=] & _)].
  - rewrite signUpStudent_login_history. split; [by left|].
    by intros [H|(s' & [=] & _)].
Qed.

(** X11. Login rows are only ever added, and only by [recordLogin]: after
    any call every login row that was there is still there, and a row
    that is new is the row (student, today) of a [recordLogin] for that
    student. *)
Theorem login_rows_are_append_only :
  ∀ (call : Call) (w : World),
    login_history (db w) ⊆ login_history (db (after call w))
    ∧ (∀ x, x ∈ login_history (db (after call w)) →
            x ∈ login_history (db w)
            ∨ ∃ s, call = RecordLogin s ∧ x = (s, now w)).
Proof.
  intros call w. split.
  - intros x Hx. apply call_login_history. by left.
  - intros x Hx. apply call_login_history in Hx as [H|(s & -> & -> & _)];
      [by left|right; by exists s].
Qed.

Lemma login_rows_are_append_only_witness :
  (student1, 10) ∈ login_history (db fresh_world)
  ∨ ∃ s, RecordLogin student1 = RecordLogin s ∧ (student1, 10) = (s, now fresh_world).
Proof.
  apply (proj2 (login_rows_are_append_only (RecordLogin student1) fresh_world)).
  vm_compute. reflexivity.
Defined.

Lemma login_dates_length_mono (k : string) (lh lh' : gset (string * date)) :
  lh ⊆ lh' → (length (login_dates k lh) ≤ length (login_dates k lh'))%nat.
Proof.
  intros Hsub. apply submseteq_length, NoDup_submseteq; [apply login_dates_NoDup|].
  intros d. rewrite !elem_of_login_dates. apply Hsub.
Qed.

Lemma row_sound_mono (k : string) (c : StreakCols) (lh lh' : gset (string * date)) :
  lh ⊆ lh' → row_sound k c lh → row_sound k c lh'.
Proof.
  intros Hsub (H0 & H1 & H2 & H3). repeat split; try done.
  pose proof (login_dates_length_mono k lh lh' Hsub) as Hm.
  rewrite !login_dates_length_size in Hm. lia.
Qed.

Lemma payload_sound (tz : TimeZone) (s : string) (lh : gset (string * date))
    (today : date) :
  selected_logins s lh ≠ [] →
  row_sound s (cols_of (streakPayload tz s (selected_logins s lh) today)) lh.
Proof.
  intros Hne.
  destruct (streakPayload_invariant tz s _ today Hne) as [H1 H2].
  split; [|split; [done|split; [done|]]].
  - cbn. rewrite computeCurrentStreak_by. unfold currentStreak_by.
    pose proof (leading_pairs_by_bounds (daysDiff tz)
                  (sortDates (selected_logins s lh))) as [Hk _].
    destruct (sortDates (selected_logins s lh)); [done|]. case_bool_decide; lia.
  - cbn. by rewrite selected_logins_length, login_dates_length_size.
Qed.

Lemma zeroCols_sound (k : string) (lh : gset (string * date)) : row_sound k zeroCols lh.
Proof. unfold row_sound. cbn. lia. Qed.

Lemma call_rows_sound (call : Call) (w : World) :
  (∀ k c, streak_tracking (db w) !! k = Some c → row_sound k c (login_history (db w))) →
  ∀ k c, streak_tracking (db (after call w)) !! k = Some c →
         row_sound k c (login_history (db (after call w))).
Proof.
  intros Hinv k c Hk.
  assert (Hsub : login_history (db w) ⊆ login_history (db (after call w))).
  { intros x Hx. apply call_login_history. by left. }
  assert (Hold : streak_tracking (db w) !! k = Some c →
                 row_sound k c (login_history (db (after call w)))).
  { intros H. eapply row_sound_mono; [exact Hsub|]. by apply Hinv. }
  destruct call as [s|s|s|s|s]; cbn [after] in *.
  - rewrite recordLogin_run in *.
    destruct (outcomes w) as [|[e|] os]; cbn [snd db] in *; [|by apply Hold|];
      rewrite updateStreak_login_history in *; cbn [db login_history] in *;
      (apply updateStreak_writes in Hk as [Hk|(-> & logins & Hne & -> & ->)];
       [by apply Hold|]; cbn [db login_history now]; by apply payload_sound).
  - rewrite updateStreak_login_history in *.
    apply updateStreak_writes in Hk as [Hk|(-> & logins & Hne & -> & ->)];
      [by apply Hold|]. by apply payload_sound.
  - apply getStreakData_writes in Hk as [Hk|[_ ->]]; [by apply Hold|apply zeroCols_sound].
  - rewrite needsStreakMaintenance_db in *. by apply Hold.
  - apply signUpStudent_writes in Hk as [Hk|[_ ->]]; [by apply Hold|apply zeroCols_sound].
Qed.

(** X12. The summary never overstates. In every state reached from empty
    tables, whatever the store answered on the way, every summary row
    has [0 <= current_streak <= longest_streak <= total_login_days], and
    its [total_login_days] is at most the number of days the student has
    a login row for (the row may lag behind after a failed write, it is
    never ahead). *)
Theorem reachable_summaries_never_overstate :
  ∀ (w : World) (k : string) (c : StreakCols),
    reachable w →
    streak_tracking (db w) !! k = Some c →
    0 ≤ col_current_streak c
    ∧ col_current_streak c ≤ col_longest_streak c
    ∧ col_longest_streak c ≤ col_total_login_days c
    ∧ col_total_login_days c
      ≤ Z.of_nat (size (filter (λ r, r.1 = k) (login_history (db w)))).
Proof.
  intros w k c Hreach. revert k c.
  induction Hreach as [os t z|call w Hw IH|w os t z Hw IH]; intros k c Hk.
  - cbn in Hk. by rewrite lookup_empty in Hk.
  - by apply (call_rows_sound call w IH).
  - by apply IH.
Qed.

Lemma reachable_summaries_never_overstate_witness :
  0 ≤ 1 ∧ 1 ≤ 1 ∧ 1 ≤ 1
  ∧ 1 ≤ Z.of_nat (size (filter (λ r, r.1 = student1)
                          (login_history (db (after (RecordLogin student1) fresh_world))))).
Proof.
  apply (reachable_summaries_never_overstate
           (after (RecordLogin student1) fresh_world) student1
           {| col_current_streak := 1; col_longest_streak := 1;
              col_last_login_date := Some 10; col_total_login_days := 1 |}).
  - apply reachable_call, reachable_empty.
  - vm_compute. reflexivity.
Defined.

(** ** Streak statistics *)

Lemma getStreakStats_run s w :
  getStreakStats s w =
    let '(r, w1) := getStreakData s w in
    match streakData_error r with
    | Some streakError => ({| stats := None; stats_error := Some streakError |}, w1)
    | None =>
        let '(c, w2) := getLoginCalendar s 90 w1 in
        match loginDates_error c with
        | Some calendarError =>
            ({| stats := None; stats_error := Some calendarError |}, w2)
        | None =>
            match streakData r with
            | None =>
                ({| stats := None;
                    stats_error :=
                      Some (TypeError
                        "Cannot read properties of null (reading 'current_streak')") |},
                 w2)
            | Some sd =>
                ({| stats :=
                      Some {| stats_currentStreak := current_streak sd;
                              stats_longestStreak := longest_streak sd;
                              stats_totalLoginDays := total_login_days sd;
                              stats_lastLoginDate := last_login_date sd;
                              stats_loginDates := loginDates c |};
                    stats_error := None |}, w2)
            end
        end
    end.
Proof.
  unfold getStreakStats, try_catch, Supabase.bind, await, Supabase.ret, throw.
  destruct (getStreakData s w) as [r w1].
  destruct (streakData_error r); [done|].
  destruct (getLoginCalendar s 90 w1) as [c w2].
  destruct (loginDates_error c); [done|].
  by destruct (streakData r).
Qed.

(** X13. [getStreakStats] passes on the errors of the calls it makes: an
    error of [getStreakData] is returned as it is, and so is an error of
    [getLoginCalendar] when [getStreakData] went through; the result has
    statistics exactly when it has no error, and then both calls went
    through and the statistics are the summary and the calendar they
    returned. *)
Theorem getStreakStats_passes_errors_on :
  ∀ (s : string) (w : World),
    let r := fst (getStreakData s w) in
    let c := fst (getLoginCalendar s 90 (snd (getStreakData s w))) in
    (∀ e, streakData_error r = Some e →
          fst (getStreakStats s w) = {| stats := None; stats_error := Some e |})
    ∧ (∀ e, streakData_error r = None → loginDates_error c = Some e →
            fst (getStreakStats s w) = {| stats := None; stats_error := Some e |})
    ∧ (stats_error (fst (getStreakStats s w)) = None
       ↔ is_Some (stats (fst (getStreakStats s w))))
    ∧ (∀ st, stats (fst (getStreakStats s w)) = Some st →
             streakData_error r = None ∧ loginDates_error c = None
             ∧ ∃ sd, streakData r = Some sd
                     ∧ st = {| stats_currentStreak := current_streak sd;
                               stats_longestStreak := longest_streak sd;
                               stats_totalLoginDays := total_login_days sd;
                               stats_lastLoginDate := last_login_date sd;
                               stats_loginDates := loginDates c |}).
Proof.
  intros s w r c. subst r c. rewrite getStreakStats_run.
  destruct (getStreakData s w) as [r w1]. cbn [fst snd].
  destruct (streakData_error r) as [e|] eqn:Er.
  { cbn. split; [by intros e' [= ->]|]. split; [done|].
    split; [split; [done|by intros [? ?]]|done]. }
  destruct (getLoginCalendar s 90 w1) as [c w2]. cbn [fst snd].
  destruct (loginDates_error c) as [e|] eqn:Ec.
  { cbn. split; [done|]. split; [by intros e' _ [= ->]|].
    split; [split; [done|by intros [? ?]]|done]. }
  destruct (streakData r) as [sd|] eqn:Ed; cbn.
  - split; [done|]. split; [done|]. split; [split; by eauto|].
    intros st [= <-]. by eauto.
  - split; [done|]. split; [done|]. split; [split; [done|by intros [? ?]]|done].
Qed.

Lemma getStreakStats_passes_errors_on_witness :
  fst (getStreakStats student1 read_fails)
    = {| stats := None; stats_error := Some store_down |}.
Proof.
  apply (proj1 (getStreakStats_passes_errors_on student1 read_fails)).
  reflexivity.
Defined.

Lemma newest_day_not_before (s : string) (lh : gset (string * date)) (t : date) :
  (s, t) ∈ lh →
  ∃ m rest, sortDates (selected_logins s lh) = m :: rest ∧ t ≤ m.
Proof.
  intros Ht. destruct (history_sorted s lh) as (Hsd & Hin & _).
  apply Hin in Ht.
  destruct (sortDates (selected_logins s lh)) as [|m rest];
    [by apply not_elem_of_nil in Ht|].
  exists m, rest. split; [done|].
  apply elem_of_cons in Ht as [->|Ht]; [done|].
  apply strictly_descending_inv in Hsd as [_ Hlt]. specialize (Hlt _ Ht). lia.
Qed.

(** X14. Statistics right after a login. After a [recordLogin] whose store
    calls are answered, an answered [getStreakStats] on the same day
    returns statistics without error in which the current streak is at
    least 1, the last login date is today, the total is the number of
    days the student has a login row for, today is among the calendar
    days, and the calendar shows at most [totalLoginDays] days. *)
Theorem getStreakStats_after_login :
  ∀ (s : string) (w : World) (os : list (option PostgrestError)),
    answers 3 w →
    let logged := {| db := db (snd (recordLogin s w)); outcomes := os; now := now w; zone := zone w |} in
    answers 2 logged →
    ∃ st l, fst (getStreakStats s logged) = {| stats := Some st; stats_error := None |}
            ∧ 1 ≤ stats_currentStreak st
            ∧ stats_currentStreak st ≤ stats_longestStreak st
            ∧ stats_totalLoginDays st
              = Z.of_nat (size (filter (λ r, r.1 = s) (login_history (db logged))))
            ∧ stats_lastLoginDate st = Some (now w)
            ∧ stats_loginDates st = Some l
            ∧ now w ∈ l
            ∧ Z.of_nat (length l) ≤ stats_totalLoginDays st.
Proof.
  intros s w os Hans logged Hlogged.
  set (lh' := {[ (s, now w) ]} ∪ login_history (db w)).
  assert (Hdb : db logged
                = {| login_history := lh';
                     streak_tracking :=
                       <[s := cols_of (streakPayload (zone w) s (selected_logins s lh') (now w))]>
                         (streak_tracking (db w)) |}).
  { subst logged. cbn [db]. by rewrite (recordLogin_answered s w Hans). }
  assert (Hrow : streak_tracking (db logged) !! s
                 = Some (cols_of (streakPayload (zone w) s (selected_logins s lh') (now w)))).
  { rewrite Hdb. cbn. by rewrite lookup_insert_eq. }
  assert (H1 : answers 1 logged).
  { unfold answers in *. destruct (outcomes logged) as [|[e|] os']; done. }
  assert (H2 : answers 1 {| db := db logged; outcomes := tail (outcomes logged);
                            now := now logged; zone := zone logged |}).
  { unfold answers in *. cbn [outcomes] in *.
    destruct os as [|[e|] [|[e'|] os']]; done. }
  rewrite getStreakStats_run, (getStreakData_existing_row s logged _ H1 Hrow).
  cbn [streakData_error streakData].
  rewrite (getLoginCalendar_answered s 90 _ H2).
  cbn [fst loginDates_error loginDates db now].
  assert (Hin : (s, now w) ∈ lh') by (apply elem_of_union; left; by apply elem_of_singleton).
  destruct (newest_day_not_before s lh' (now w) Hin) as (m & rest & Hsorted & Hm).
  assert (Hne : selected_logins s lh' ≠ []).
  { intros E. apply (login_dates_after_upsert s (now w) (login_history (db w))).
    by apply selected_logins_nil. }
  destruct (streakPayload_invariant (zone w) s (selected_logins s lh') (now w) Hne)
    as [Hi1 Hi2].
  cbn in Hi1.
  eexists _, _. split; [reflexivity|].
  cbn [stats_currentStreak stats_longestStreak stats_totalLoginDays
       stats_lastLoginDate stats_loginDates row_of cols_of streakPayload
       current_streak longest_streak total_login_days last_login_date
       col_current_streak col_longest_streak col_total_login_days
       col_last_login_date].
  rewrite Hdb. cbn [login_history].
  rewrite selected_logins_length, login_dates_length_size.
  split; [|split; [done|split; [done|split; [done|split; [done|split]]]]].
  - rewrite computeCurrentStreak_by, Hsorted. unfold currentStreak_by.
    pose proof (daysDiff_not_after (zone w) (now w) m Hm) as Hgap.
    rewrite bool_decide_eq_true_2 by lia.
    pose proof (leading_pairs_by_bounds (daysDiff (zone w)) (m :: rest)) as [Hk _]. lia.
  - rewrite merge_sort_Permutation, list_elem_of_filter, elem_of_login_dates.
    split; [cbn; lia|done].
  - rewrite merge_sort_Permutation, <- login_dates_length_size.
    apply inj_le, length_filter.
Qed.

Lemma getStreakStats_after_login_witness :
  ∃ st l, fst (getStreakStats student1
                 {| db := db (snd (recordLogin student1 three_days));
                    outcomes := []; now := now three_days; zone := zone three_days |})
            = {| stats := Some st; stats_error := None |}
          ∧ 1 ≤ stats_currentStreak st
          ∧ stats_currentStreak st ≤ stats_longestStreak st
          ∧ stats_totalLoginDays st
            = Z.of_nat (size (filter (λ r, r.1 = student1)
                                (login_history
                                   (db {| db := db (snd (recordLogin student1 three_days));
                                          outcomes := []; now := now three_days; zone := zone three_days |}))))
          ∧ stats_lastLoginDate st = Some (now three_days)
          ∧ stats_loginDates st = Some l
          ∧ now three_days ∈ l
          ∧ Z.of_nat (length l) ≤ stats_totalLoginDays st.
Proof.
  apply (getStreakStats_after_login student1 three_days []); reflexivity.
Defined.

(** X15. The two views of the login count agree after a login. After a
    [recordLogin] whose store calls are answered, the [totalLoginDays] an
    answered [getLoginConsistency] returns is the [total_login_days] of
    the student's summary row. *)
Theorem getLoginConsistency_agrees_with_summary :
  ∀ (s : string) (w : World) (os : list (option PostgrestError)) (t' : date)
    (z' : TimeZone),
    answers 3 w →
    let logged := {| db := db (snd (recordLogin s w)); outcomes := os; now := t'; zone := z' |} in
    answers 1 logged →
    ∃ c, streak_tracking (db logged) !! s = Some c
         ∧ consistency_error (fst (getLoginConsistency s logged)) = None
         ∧ totalLoginDays (fst (getLoginConsistency s logged)) = col_total_login_days c.
Proof.
  intros s w os t' z' Hans logged Hlogged. subst logged.
  rewrite getLoginConsistency_run. unfold answers in Hlogged. cbn [outcomes db] in *.
  rewrite (recordLogin_answered s w Hans). cbn [snd db streak_tracking login_history].
  rewrite lookup_insert_eq. eexists. split; [reflexivity|].
  destruct os as [|[e|] os]; try discriminate; done.
Qed.

Lemma getLoginConsistency_agrees_with_summary_witness :
  ∃ c, streak_tracking
         (db {| db := db (snd (recordLogin student1 three_days));
                outcomes := []; now := 12; zone := UTC |}) !! student1 = Some c
       ∧ consistency_error
           (fst (getLoginConsistency student1
                   {| db := db (snd (recordLogin student1 three_days));
                      outcomes := []; now := 12; zone := UTC |})) = None
       ∧ totalLoginDays
           (fst (getLoginConsistency student1
                   {| db := db (snd (recordLogin student1 three_days));
                      outcomes := []; now := 12; zone := UTC |}))
         = col_total_login_days c.
Proof.
  apply (getLoginConsistency_agrees_with_summary student1 three_days [] 12 UTC); reflexivity.
Defined.

(** ** Streak maintenance when the store fails *)

(** X16. [needsStreakMaintenance] never reports an error, whatever the
    store answers, and a [true] always means that yesterday has a login
    row. A failed read counts as a missing row: when the read for today
    fails and the read for yesterday is answered, the result is [true]
    exactly when yesterday has a row, whether or not today has one. *)
Theorem needsStreakMaintenance_treats_failure_as_absence :
  ∀ (s : string) (w : World),
    needsMaintenance_error (fst (needsStreakMaintenance s w)) = None
    ∧ (needsMaintenance (fst (needsStreakMaintenance s w)) = true →
       (s, now w - 1) ∈ login_history (db w))
    ∧ (∀ e, outcomes w !! 0%nat = Some (Some e) →
            outcomes w !! 1%nat = None ∨ outcomes w !! 1%nat = Some None →
            needsMaintenance (fst (needsStreakMaintenance s w))
              = bool_decide ((s, now w - 1) ∈ login_history (db w))).
Proof.
  intros s w. destruct w as [d os t z]. run_store. unfold subDays.
  destruct os as [|[e|] [|[e'|] os]]; cbn;
    repeat (case_bool_decide; cbn); repeat split; try done;
    try (intros e0 H0 [H1|H1]; congruence); intros e0 H0; try congruence.
Qed.

Lemma needsStreakMaintenance_treats_failure_as_absence_witness :
  needsMaintenance (fst (needsStreakMaintenance student1 today_read_fails))
    = bool_decide ((student1, now today_read_fails - 1)
                     ∈ login_history (db today_read_fails))
  ∧ ((student1, now today_read_fails) ∈ login_history (db today_read_fails)
     ∧ needsMaintenance (fst (needsStreakMaintenance student1 today_read_fails)) = true).
Proof.
  split.
  - apply (proj2 (proj2 (needsStreakMaintenance_treats_failure_as_absence
                           student1 today_read_fails)) store_down).
    + reflexivity.
    + left. reflexivity.
  - vm_compute. split; reflexivity.
Defined.

(** ** The shape of the achievements *)

Ltac achievements_by_range cs :=
  let H := fresh "Hrange" in
  assert (H : cs < 7 ∨ 7 ≤ cs < 14 ∨ 14 ≤ cs < 30 ∨ 30 ≤ cs < 60
              ∨ 60 ≤ cs < 90 ∨ 90 ≤ cs < 180 ∨ 180 ≤ cs < 365 ∨ 365 ≤ cs) by lia;
  destruct H as [H|[H|[H|[H|[H|[H|[H|H]]]]]]].

(** X17. For every integer current streak, negative ones included, the
    achieved milestones are an initial part of the table
    [7; 14; 30; 60; 90; 180; 365], the upcoming milestone is the table
    entry that comes right after them (none when all seven are achieved),
    its [daysRemaining] is at least 1, and a larger streak keeps every
    milestone a smaller one has achieved. *)
Theorem achievements_are_a_growing_prefix :
  ∀ (cs cs' ls ls' : Z),
    let a := getStreakAchievements cs ls in
    map milestone (current a) = take (length (current a)) milestones
    ∧ upcoming_milestone <$> upcoming a = milestones !! length (current a)
    ∧ (∀ u, upcoming a = Some u → 1 ≤ daysRemaining u)
    ∧ (cs ≤ cs' →
       map milestone (current a)
         `prefix_of` map milestone (current (getStreakAchievements cs' ls'))).
Proof.
  intros cs cs' ls ls' a. subst a.
  split; [|split; [|split]].
  - unfold getStreakAchievements, milestones. cbn [current fold_left].
    unfold pushIfReached. achievements_by_range cs; decide_by_lia; reflexivity.
  - unfold getStreakAchievements, milestones. cbn [current upcoming fold_left Js.Array_find].
    unfold pushIfReached. achievements_by_range cs; decide_by_lia; reflexivity.
  - unfold getStreakAchievements, milestones. cbn [upcoming Js.Array_find].
    intros u. achievements_by_range cs; decide_by_lia; cbn;
      intros [= <-]; cbn; lia.
  - intros Hle. unfold getStreakAchievements. cbn [current].
    rewrite !pushed_milestones. cbn [map app]. unfold milestones.
    rewrite !filter_cons, filter_nil.
    achievements_by_range cs; achievements_by_range cs'; try lia;
      decide_by_lia; by eexists.
Qed.

Lemma achievements_are_a_growing_prefix_witness :
  map milestone (current (getStreakAchievements 10 0))
    `prefix_of` map milestone (current (getStreakAchievements 45 0))
  ∧ (∀ u, upcoming (getStreakAchievements (-3) 0) = Some u → 1 ≤ daysRemaining u).
Proof.
  split.
  - apply (achievements_are_a_growing_prefix 10 45 0 0). lia.
  - apply (achievements_are_a_growing_prefix (-3) 0 0 0).
Defined.

(** ** One student's calls leave the others alone *)

Lemma updateStreak_other s w (k : string) :
  k ≠ s →
  streak_tracking (db (snd (updateStreak s w))) !! k = streak_tracking (db w) !! k.
Proof.
  intros Hk. rewrite updateStreak_run.
  destruct (outcomes w) as [|[e|] [|[e'|] os]]; cbn;
    repeat (case_bool_decide; cbn); rewrite ?lookup_insert_ne; done.
Qed.

Lemma signUpStudent_other s w (k : string) :
  k ≠ s →
  streak_tracking (db (snd (signUpStudent_initStreak s w))) !! k
    = streak_tracking (db w) !! k.
Proof.
  intros Hk. destruct w as [d os t z]. run_store.
  destruct os as [|[e|] os]; cbn; try done;
    (destruct (streak_tracking d !! s); cbn; rewrite ?lookup_insert_ne; done).
Qed.

Lemma getStreakData_other s w (k : string) :
  k ≠ s →
  streak_tracking (db (snd (getStreakData s w))) !! k = streak_tracking (db w) !! k.
Proof.
  intros Hk.
  destruct (streak_tracking (db w) !! k) as [c|] eqn:E.
  - by apply getStreakData_keeps_rows.
  - destruct (streak_tracking (db (snd (getStreakData s w))) !! k) as [c|] eqn:E';
      [|done].
    apply getStreakData_writes in E' as [E'|[-> _]]; congruence.
Qed.

(** X18. Students do not interfere. A call about one student never
    changes the summary row of another student, and never adds or removes
    a login row of another student, whatever the store answers. *)
Theorem calls_leave_other_students_alone :
  ∀ (call : Call) (w : World) (k : string),
    k ≠ subject call →
    streak_tracking (db (after call w)) !! k = streak_tracking (db w) !! k
    ∧ (∀ d, (k, d) ∈ login_history (db (after call w)) ↔ (k, d) ∈ login_history (db w)).
Proof.
  intros call w k Hk. split.
  - destruct call as [s|s|s|s|s]; cbn [after subject] in *.
    + rewrite recordLogin_run.
      destruct (outcomes w) as [|[e|] os]; cbn [snd db]; [|done|];
        by rewrite updateStreak_other.
    + by apply updateStreak_other.
    + by apply getStreakData_other.
    + by rewrite needsStreakMaintenance_db.
    + by apply signUpStudent_other.
  - intros d. rewrite call_login_history. split; [|by left].
    intros [H|(s & -> & [= -> _] & _)]; [done|]. by cbn in Hk.
Qed.

Lemma calls_leave_other_students_alone_witness :
  streak_tracking (db (after (RecordLogin student1) three_days)) !! "s2"%string
    = streak_tracking (db three_days) !! "s2"%string
  ∧ (∀ d, ("s2"%string, d) ∈ login_history (db (after (RecordLogin student1) three_days))
          ↔ ("s2"%string, d) ∈ login_history (db three_days)).
Proof.
  apply (calls_leave_other_students_alone (RecordLogin student1) three_days "s2").
  discriminate.
Defined.
